(** * octree.io agent: the code-execution handler of [main.go]

    A shallow embedding of [main.go]: the operating system (file system,
    process-wide working directory, clock, child processes) is an explicit
    [world] threaded through a small state monad, the Go functions are
    monadic definitions that keep their names, and Go's returned [error]
    values are [option string] ([None] is [nil]). *)

From Stdlib Require Import ZArith Lia Ascii.
From stdpp Require Import gmap strings list fin_maps sorting pretty.

Open Scope Z_scope.

(** ** Paths

    A Go path string is kept in cleaned, component form: [Abs] for a path
    that starts with a separator, [Rel] for one that is resolved against
    the process-wide working directory. *)

Inductive fpath :=
| Abs (elems : list string)
| Rel (elems : list string).

Global Instance fpath_eq_dec : EqDecision fpath.
Proof. solve_decision. Defined.

Definition resolve (cwd : list string) (p : fpath) : list string :=
  match p with
  | Abs l => l
  | Rel l => cwd ++ l
  end.

(** [filepath.Join] *)
Definition filepath_Join (a b : fpath) : fpath :=
  match a, b with
  | Abs l, (Abs k | Rel k) => Abs (l ++ k)
  | Rel l, (Abs k | Rel k) => Rel (l ++ k)
  end.

Fixpoint strip_prefix (base target : list string) : option (list string) :=
  match base, target with
  | [], t => Some t
  | b :: base', t :: target' =>
      if decide (b = t) then strip_prefix base' target' else None
  | _ :: _, [] => None
  end.

(** [filepath.Rel], on the paths the walk produces (the target extends the
    base); a target outside the base is reported as an error. *)
Definition filepath_Rel (base target : fpath) : option fpath * option string :=
  match base, target with
  | Abs b, Abs t | Rel b, Rel t =>
      match strip_prefix b t with
      | Some r => (Some (Rel r), None)
      | None => (None, Some "Rel: can't make target relative to base")
      end
  | _, _ => (None, Some "Rel: can't make target relative to base")
  end.

(** ** The file system *)

Inductive node :=
| File (data : string) (synced : bool)
| Dir.

Global Instance node_eq_dec : EqDecision node.
Proof. solve_decision. Defined.

Definition is_dir (o : option node) : bool :=
  match o with Some Dir => true | _ => false end.

(** The root directory always exists. *)
Definition fs_lookup (fs : gmap (list string) node) (p : list string) : option node :=
  match p with
  | [] => Some Dir
  | _ => fs !! p
  end.

Definition parent (p : list string) : list string := removelast p.

Definition string_le (a b : string) : Prop := String.leb a b = true.

Global Instance string_le_dec : RelDecision string_le.
Proof. intros a b. unfold string_le. apply _. Defined.

Definition child_name (p k : list string) : option string :=
  match strip_prefix p k with
  | Some [n] => Some n
  | _ => None
  end.

(** The entries of directory [p], in lexical order. *)
Definition dir_names (fs : gmap (list string) node) (p : list string) : list string :=
  merge_sort string_le (omap (fun kv => child_name p kv.1) (map_to_list fs)).

Definition under (p k : list string) : bool := bool_decide (is_Some (strip_prefix p k)).

Definition fs_remove_all (fs : gmap (list string) node) (p : list string)
  : gmap (list string) node :=
  filter (fun kv => under p kv.1 = false) fs.

(** ** Child processes and contexts *)

(** What a runtime does when it is spawned: the environment decides. *)
Record proc := {
  p_start_err : option string;   (* the binary cannot be started *)
  p_runtime : option N;          (* milliseconds until it exits by itself *)
  p_exit : Z;                    (* its exit status *)
  p_stdout : string;             (* what it wrote until it ended *)
  p_stderr : string;
}.

(** [context.WithTimeout]: creation time and budget, in milliseconds.
    [ctx_slot] is the place in the process table that the command run under
    the context will take; it ties the deferred [cancel] to that command. *)
Record context := {
  ctx_created : Z;
  ctx_timeout : Z;
  ctx_slot : nat;
}.

Definition ctx_deadline (c : context) : Z := ctx_created c + ctx_timeout c.

Global Instance context_eq_dec : EqDecision context.
Proof. solve_decision. Defined.

Inductive pstate :=
| Running
| Exited (code : Z)
| Killed.

Global Instance pstate_eq_dec : EqDecision pstate.
Proof. solve_decision. Defined.

Record child := {
  c_argv : list string;
  c_Dir : option fpath;          (* the per-call directory of the spawn *)
  c_workdir : list string;       (* the directory the child runs in *)
  c_ctx : context;
  c_start : Z;
  c_beh : proc;
  c_state : pstate;
}.

Definition set_c_state (st : pstate) (c : child) : child :=
  {| c_argv := c_argv c; c_Dir := c_Dir c; c_workdir := c_workdir c;
     c_ctx := c_ctx c; c_start := c_start c; c_beh := c_beh c; c_state := st |}.

(** When a supervised child ends, and how: by itself when it exits before
    the deadline of its context, killed at the deadline otherwise. *)
Definition child_end (c : child) : Z * pstate :=
  match p_runtime (c_beh c) with
  | Some d =>
      if c_start c + Z.of_N d <? ctx_deadline (c_ctx c)
      then (c_start c + Z.of_N d, Exited (p_exit (c_beh c)))
      else (ctx_deadline (c_ctx c), Killed)
  | None => (ctx_deadline (c_ctx c), Killed)
  end.

(** The deadline passes before the child exits by itself. *)
Definition overruns (c : child) : Prop :=
  match p_runtime (c_beh c) with
  | Some d => ctx_deadline (c_ctx c) <= c_start c + Z.of_N d
  | None => True
  end.

(** ** Events and the world *)

Inductive event :=
| EvPrint (s : string)
| EvLog (s : string)
| EvUUID
| EvGetwd
| EvChdir (p : fpath)
| EvMkdir (p : fpath)
| EvMkdirAll (p : fpath)
| EvLstat (p : fpath)
| EvReadDir (p : fpath)
| EvOpen (p : fpath)
| EvCreate (p : fpath)
| EvCopy (dst src : list string)
| EvSync (f : list string)
| EvClose (f : list string)
| EvWriteFile (p : fpath)
| EvRemove (p : fpath)
| EvRemoveAll (p : fpath)
| EvPipe
| EvStart (argv : list string)
| EvReadAll (pid : nat)
| EvWait (pid : nat).

Global Instance event_eq_dec : EqDecision event.
Proof. solve_decision. Defined.

Record world := {
  w_fs : gmap (list string) node;
  w_cwd : list string;             (* the process-wide working directory *)
  w_clock : Z;                     (* wall clock, milliseconds *)
  w_trace : list (event * Z);      (* every call made, with its duration *)
  w_children : list child;
}.

Definition set_fs (fs : gmap (list string) node) (w : world) : world :=
  {| w_fs := fs; w_cwd := w_cwd w; w_clock := w_clock w;
     w_trace := w_trace w; w_children := w_children w |}.

Definition set_cwd (d : list string) (w : world) : world :=
  {| w_fs := w_fs w; w_cwd := d; w_clock := w_clock w;
     w_trace := w_trace w; w_children := w_children w |}.

Definition set_children (cs : list child) (w : world) : world :=
  {| w_fs := w_fs w; w_cwd := w_cwd w; w_clock := w_clock w;
     w_trace := w_trace w; w_children := cs |}.

Definition log_event (ev : event) (d : Z) (w : world) : world :=
  {| w_fs := w_fs w; w_cwd := w_cwd w; w_clock := w_clock w + d;
     w_trace := w_trace w ++ [(ev, d)]; w_children := w_children w |}.

Definition total_duration (evs : list (event * Z)) : Z :=
  foldr (fun e acc => e.2 + acc) 0 evs.

(** ** The monad: state passing; [None] is a walk that ran out of fuel *)

Definition M (A : Type) : Type := world -> option (A * world).

Definition ret {A} (a : A) : M A := fun w => Some (a, w).

Definition bind {A B} (m : M A) (k : A -> M B) : M B :=
  fun w => match m w with
           | Some (a, w') => k a w'
           | None => None
           end.

Definition get : M world := fun w => Some (w, w).

Definition modify (f : world -> world) : M unit := fun w => Some (tt, f w).

Declare Scope go_scope.
Delimit Scope go_scope with go.
Notation "'let*' pat := m 'in' k" := (bind m (fun x => match x with pat => k end))
  (at level 10, pat pattern, m at level 99, k at level 200) : go_scope.
Notation "'do' m ';;' k" := (bind m (fun _ => k))
  (at level 10, m at level 99, k at level 200) : go_scope.
Open Scope go_scope.

(** A Go [error]; [None] is [nil]. *)
Abbreviation error := (option string).

(** [fmt.Errorf("<msg>: %w", err)] *)
Definition Errorf (msg : string) (err : string) : error := Some (msg +:+ err).

(** ** The environment: everything the program does not decide itself *)

Record CodeExecRequest := {
  Language : string;
  Code : string;
}.

Record env := {
  e_uuid : nat -> string;            (* [uuid.New().String()], by call index *)
  e_fault : nat -> option string;    (* an operating-system failure of a call *)
  e_cost : nat -> N;                 (* how long a call takes, milliseconds *)
  e_proc : gmap (list string) node -> list string -> list string -> proc;
  e_unmarshal : string -> option CodeExecRequest;   (* [json.Unmarshal] *)
}.

Record FileInfo := { IsDir : bool }.

(** An open file, named by the path it was opened at. *)
Abbreviation file := (list string).

Inductive stream := Stdout | Stderr.

Record Cmd := {
  cmd_ctx : context;
  cmd_Args : list string;
  cmd_Dir : option fpath;
  cmd_Process : option nat;
}.

(** [exec.CommandContext]: [Dir] is left at its zero value. *)
Definition exec_CommandContext (ctx : context) (name : string) (args : list string) : Cmd :=
  {| cmd_ctx := ctx; cmd_Args := name :: args; cmd_Dir := None; cmd_Process := None |}.

Definition path_string (p : fpath) : string :=
  match p with
  | Abs l => foldr (fun n acc => "/" +:+ n +:+ acc) "" l
  | Rel [] => "."
  | Rel (n :: l) => n +:+ foldr (fun n acc => "/" +:+ n +:+ acc) "" l
  end.

Fixpoint mkdir_all (fs : gmap (list string) node) (pre rest : list string)
  : option (gmap (list string) node) :=
  match rest with
  | [] => Some fs
  | n :: rest' =>
      match fs !! (pre ++ [n]) with
      | Some Dir => mkdir_all fs (pre ++ [n]) rest'
      | Some (File _ _) => None
      | None => mkdir_all (<[pre ++ [n] := Dir]> fs) (pre ++ [n]) rest'
      end
  end.

Definition settle (now : Z) (c : child) : child :=
  match c_state c with
  | Running => if (child_end c).1 <=? now then set_c_state (child_end c).2 c else c
  | _ => c
  end.

Definition cancel_child (now : Z) (c : child) : child :=
  match c_state (settle now c) with
  | Running => set_c_state Killed c
  | _ => settle now c
  end.

Section Agent.

Variable E : env.

(** *** System calls *)

(** What the environment holds for the next call: its duration, and the
    failure it injects. *)
Definition cost (w : world) : Z := Z.of_N (e_cost E (length (w_trace w))).
Definition fault (w : world) : error := e_fault E (length (w_trace w)).

(** Every call is logged with its duration and may fail for a reason of the
    operating system's own. *)
Definition emit (ev : event) : M error := fun w =>
  Some (fault w, log_event ev (cost w) w).

(** A call that blocks until time [t]. *)
Definition emit_after (t : Z) (ev : event) : M error := fun w =>
  Some (fault w, log_event ev (Z.max 0 (t - w_clock w) + cost w) w).

Definition uuid_New_String : M string := fun w =>
  Some (e_uuid E (length (w_trace w)), log_event EvUUID (cost w) w).

Definition fmt_Printf (s : string) : M unit := do emit (EvPrint s) ;; ret tt.

Definition log_Printf (s : string) : M unit := do emit (EvLog s) ;; ret tt.

Definition time_Now : M Z := let* w := get in ret (w_clock w).

Definition os_Getwd : M (fpath * error) :=
  let* flt := emit EvGetwd in
  match flt with
  | Some e => ret (Rel [], Some e)
  | None => let* w := get in ret (Abs (w_cwd w), None)
  end.

Definition os_Chdir (dir : fpath) : M error :=
  let* flt := emit (EvChdir dir) in
  match flt with
  | Some e => ret (Some e)
  | None =>
      let* w := get in
      let target := resolve (w_cwd w) dir in
      if is_dir (fs_lookup (w_fs w) target)
      then do modify (set_cwd target) ;; ret None
      else ret (Some "chdir: no such file or directory")
  end.

Definition os_Mkdir (name : fpath) : M error :=
  let* flt := emit (EvMkdir name) in
  match flt with
  | Some e => ret (Some e)
  | None =>
      let* w := get in
      let target := resolve (w_cwd w) name in
      match fs_lookup (w_fs w) target with
      | Some _ => ret (Some "mkdir: file exists")
      | None =>
          if is_dir (fs_lookup (w_fs w) (parent target))
          then do modify (set_fs (<[target := Dir]> (w_fs w))) ;; ret None
          else ret (Some "mkdir: no such file or directory")
      end
  end.

Definition os_MkdirAll (path : fpath) : M error :=
  let* flt := emit (EvMkdirAll path) in
  match flt with
  | Some e => ret (Some e)
  | None =>
      let* w := get in
      match mkdir_all (w_fs w) [] (resolve (w_cwd w) path) with
      | Some fs' => do modify (set_fs fs') ;; ret None
      | None => ret (Some "mkdir: not a directory")
      end
  end.

Definition os_Lstat (name : fpath) : M (option FileInfo * error) :=
  let* flt := emit (EvLstat name) in
  match flt with
  | Some e => ret (None, Some e)
  | None =>
      let* w := get in
      match fs_lookup (w_fs w) (resolve (w_cwd w) name) with
      | Some n => ret (Some {| IsDir := is_dir (Some n) |}, None)
      | None => ret (None, Some "lstat: no such file or directory")
      end
  end.

Definition readDirNames (dirname : fpath) : M (list string * error) :=
  let* flt := emit (EvReadDir dirname) in
  match flt with
  | Some e => ret ([], Some e)
  | None =>
      let* w := get in
      let target := resolve (w_cwd w) dirname in
      if is_dir (fs_lookup (w_fs w) target)
      then ret (dir_names (w_fs w) target, None)
      else ret ([], Some "readdir: not a directory")
  end.

(** An open file is identified by the resolved path it was opened at. *)
Definition os_Open (name : fpath) : M (file * error) :=
  let* flt := emit (EvOpen name) in
  match flt with
  | Some e => ret ([], Some e)
  | None =>
      let* w := get in
      let target := resolve (w_cwd w) name in
      match fs_lookup (w_fs w) target with
      | Some _ => ret (target, None)
      | None => ret ([], Some "open: no such file or directory")
      end
  end.

(** [os.Create]: creates or truncates. *)
Definition os_Create (name : fpath) : M (file * error) :=
  let* flt := emit (EvCreate name) in
  match flt with
  | Some e => ret ([], Some e)
  | None =>
      let* w := get in
      let target := resolve (w_cwd w) name in
      match fs_lookup (w_fs w) target with
      | Some Dir => ret ([], Some "open: is a directory")
      | _ =>
          if is_dir (fs_lookup (w_fs w) (parent target))
          then do modify (set_fs (<[target := File "" false]> (w_fs w))) ;;
               ret (target, None)
          else ret ([], Some "open: no such file or directory")
      end
  end.

Definition io_Copy (dst src : file) : M (Z * error) :=
  let* flt := emit (EvCopy dst src) in
  match flt with
  | Some e => ret (0, Some e)
  | None =>
      let* w := get in
      match fs_lookup (w_fs w) src with
      | Some (File data _) =>
          do modify (set_fs (<[dst := File data false]> (w_fs w))) ;;
          ret (Z.of_nat (String.length data), None)
      | Some Dir => ret (0, Some "read: is a directory")
      | None => ret (0, Some "read: file already closed")
      end
  end.

Definition file_Sync (f : file) : M error :=
  let* flt := emit (EvSync f) in
  match flt with
  | Some e => ret (Some e)
  | None =>
      let* w := get in
      match w_fs w !! f with
      | Some (File data _) =>
          do modify (set_fs (<[f := File data true]> (w_fs w))) ;; ret None
      | _ => ret None
      end
  end.

Definition file_Close (f : file) : M error := emit (EvClose f).

Definition os_WriteFile (name : fpath) (data : string) : M error :=
  let* flt := emit (EvWriteFile name) in
  match flt with
  | Some e => ret (Some e)
  | None =>
      let* w := get in
      let target := resolve (w_cwd w) name in
      match fs_lookup (w_fs w) target with
      | Some Dir => ret (Some "open: is a directory")
      | _ =>
          if is_dir (fs_lookup (w_fs w) (parent target))
          then do modify (set_fs (<[target := File data false]> (w_fs w))) ;; ret None
          else ret (Some "open: no such file or directory")
      end
  end.

Definition os_Remove (name : fpath) : M error :=
  let* flt := emit (EvRemove name) in
  match flt with
  | Some e => ret (Some e)
  | None =>
      let* w := get in
      let target := resolve (w_cwd w) name in
      match fs_lookup (w_fs w) target with
      | None => ret (Some "remove: no such file or directory")
      | Some n =>
          match n, dir_names (w_fs w) target with
          | Dir, _ :: _ => ret (Some "remove: directory not empty")
          | _, _ => do modify (set_fs (delete target (w_fs w))) ;; ret None
          end
      end
  end.

Definition os_RemoveAll (path : fpath) : M error :=
  let* flt := emit (EvRemoveAll path) in
  match flt with
  | Some e => ret (Some e)
  | None =>
      let* w := get in
      do modify (set_fs (fs_remove_all (w_fs w) (resolve (w_cwd w) path))) ;;
      ret None
  end.

(** *** Contexts and commands *)

Definition context_WithTimeout (d : Z) : M context :=
  let* w := get in
  ret {| ctx_created := w_clock w; ctx_timeout := d;
         ctx_slot := length (w_children w) |}.

(** [ctx.Err()]: non-nil once the deadline has passed. *)
Definition ctx_Err (ctx : context) : M error :=
  let* w := get in
  ret (if ctx_deadline ctx <=? w_clock w
       then Some "context deadline exceeded" else None).

(** The deferred [cancel()]: the command of the context is killed when it
    is still running. *)
Definition cancel (ctx : context) : M unit :=
  let* w := get in
  match w_children w !! ctx_slot ctx with
  | Some c =>
      if bool_decide (c_ctx c = ctx)
      then modify (set_children
             (<[ctx_slot ctx := cancel_child (w_clock w) c]> (w_children w)))
      else ret tt
  | None => ret tt
  end.

Definition cmd_Pipe (cmd : Cmd) (s : stream) : M (stream * error) :=
  let* flt := emit EvPipe in ret (s, flt).

Definition cmd_Start (cmd : Cmd) : M (Cmd * error) :=
  let* w0 := get in
  let* flt := emit (EvStart (cmd_Args cmd)) in
  match flt with
  | Some e => ret (cmd, Some e)
  | None =>
      if ctx_deadline (cmd_ctx cmd) <=? w_clock w0
      then ret (cmd, Some "context deadline exceeded")
      else
        let* w := get in
        let workdir := match cmd_Dir cmd with
                       | Some d => resolve (w_cwd w) d
                       | None => w_cwd w
                       end in
        let beh := e_proc E (w_fs w) workdir (cmd_Args cmd) in
        match p_start_err beh with
        | Some e => ret (cmd, Some e)
        | None =>
            do modify (set_children (w_children w ++
                 [ {| c_argv := cmd_Args cmd; c_Dir := cmd_Dir cmd;
                      c_workdir := workdir; c_ctx := cmd_ctx cmd;
                      c_start := w_clock w; c_beh := beh; c_state := Running |} ])) ;;
            ret ({| cmd_ctx := cmd_ctx cmd; cmd_Args := cmd_Args cmd;
                    cmd_Dir := cmd_Dir cmd;
                    cmd_Process := Some (length (w_children w)) |}, None)
        end
  end.

(** Block until child [pid] has ended; the call [ev] lasts that long, and
    may still report a failure of its own. *)
Definition await (pid : nat) (ev : event) : M (option child * error) :=
  let* w := get in
  match w_children w !! pid with
  | Some c =>
      match c_state c with
      | Running =>
          let* flt := emit_after (child_end c).1 ev in
          do modify (fun w => set_children
               (<[pid := set_c_state (child_end c).2 c]> (w_children w)) w) ;;
          ret (Some (set_c_state (child_end c).2 c), flt)
      | _ => let* flt := emit ev in ret (Some c, flt)
      end
  | None => let* flt := emit ev in ret (None, flt)
  end.

Definition cmd_Wait (cmd : Cmd) : M error :=
  match cmd_Process cmd with
  | None => ret (Some "exec: not started")
  | Some pid =>
      let* (oc, err) := await pid (EvWait pid) in
      match err, oc with
      | Some e, _ => ret (Some e)
      | None, Some c =>
          match c_state c with
          | Exited 0 => ret None
          | Exited n => ret (Some ("exit status " +:+ pretty n))
          | _ => ret (Some "signal: killed")
          end
      | None, None => ret (Some "exec: no such process")
      end
  end.

(** [io.ReadAll] on a pipe of the child: returns at end of file, which is
    when the child has ended. *)
Definition io_ReadAll (cmd : Cmd) (pipe : stream) : M (string * error) :=
  match cmd_Process cmd with
  | None => ret ("", Some "read: file already closed")
  | Some pid =>
      let* (oc, err) := await pid (EvReadAll pid) in
      match err, oc with
      | Some e, _ => ret ("", Some e)
      | None, Some c =>
          ret (match pipe with
               | Stdout => p_stdout (c_beh c)
               | Stderr => p_stderr (c_beh c)
               end, None)
      | None, None => ret ("", Some "read: file already closed")
      end
  end.

(** [bytes.Buffer.String()] of a buffer installed as [cmd.Stdout] or
    [cmd.Stderr]. *)
Definition Buffer_String (cmd : Cmd) (s : stream) : M string :=
  let* w := get in
  ret (match cmd_Process cmd with
       | Some pid =>
           match w_children w !! pid with
           | Some c =>
               match c_state c, s with
               | Running, _ => ""
               | _, Stdout => p_stdout (c_beh c)
               | _, Stderr => p_stderr (c_beh c)
               end
           | None => ""
           end
       | None => ""
       end).

(** *** [main.go] *)

Definition scratch_root : fpath := Abs ["mnt"; "persistent"].
Definition template_root : fpath := Abs ["tmp"; "dummy-pkg-ts"].

Definition LANGUAGE_EXTENSIONS : gmap string string :=
  <["javascript" := ".js"]> (<["typescript" := ".ts"]> ∅).

(** copyFile copies a file from src to dest *)
Definition copyFile (src dest : fpath) : M error :=
  let* (sourceFile, err) := os_Open src in
  match err with
  | Some e => ret (Some e)
  | None =>
      let* r :=
        (let* (destFile, err) := os_Create dest in
         match err with
         | Some e => ret (Some e)
         | None =>
             let* r :=
               (let* (_, err) := io_Copy destFile sourceFile in
                match err with
                | Some e => ret (Some e)
                | None => file_Sync destFile
                end) in
             do file_Close destFile ;; ret r
         end) in
      do file_Close sourceFile ;; ret r
  end.

(** [filepath.Walk]: the names of a directory are read before the callback
    runs on it, every entry is looked up again when it is reached, and the
    first error ends the walk. The callbacks of this program return
    operating-system errors only, never [filepath.SkipDir]. *)
Fixpoint walk_names (rec : fpath -> FileInfo -> M error)
    (walkFn : fpath -> option FileInfo -> error -> M error)
    (path : fpath) (names : list string) : M error :=
  match names with
  | [] => ret None
  | name :: rest =>
      let filename := filepath_Join path (Rel [name]) in
      let* (fileInfo, err) := os_Lstat filename in
      let* err :=
        match err, fileInfo with
        | None, Some fi => rec filename fi
        | _, _ => walkFn filename fileInfo err
        end in
      match err with
      | Some e => ret (Some e)
      | None => walk_names rec walkFn path rest
      end
  end.

Fixpoint walk (fuel : nat) (walkFn : fpath -> option FileInfo -> error -> M error)
    (path : fpath) (info : FileInfo) : M error :=
  match fuel with
  | O => fun _ => None
  | S fuel' =>
      if negb (IsDir info) then walkFn path (Some info) None
      else
        let* (names, err) := readDirNames path in
        let* err1 := walkFn path (Some info) err in
        match err, err1 with
        | None, None => walk_names (walk fuel' walkFn) walkFn path names
        | _, _ => ret err1
        end
  end.

Definition filepath_Walk (fuel : nat) (root : fpath)
    (fn : fpath -> option FileInfo -> error -> M error) : M error :=
  let* (info, err) := os_Lstat root in
  match err, info with
  | None, Some fi => walk fuel fn root fi
  | _, _ => fn root None err
  end.

(** [info] is non-nil whenever the walk passes a nil error. *)
Definition info_IsDir (info : option FileInfo) : bool :=
  match info with
  | Some fi => IsDir fi
  | None => false
  end.

(** The function literal that copyDirectory passes to [filepath.Walk]. *)
Definition copyDirectory_func (srcDir destDir : fpath)
    (path : fpath) (info : option FileInfo) (err : error) : M error :=
  match err with
  | Some e => ret (Some e)
  | None =>
      match filepath_Rel srcDir path with
      | (Some relPath, None) =>
          let destPath := filepath_Join destDir relPath in
          if info_IsDir info then os_MkdirAll destPath
          else copyFile path destPath
      | (_, err) => ret err
      end
  end.

(** copyDirectory copies the contents of srcDir to destDir *)
Definition copyDirectory (fuel : nat) (srcDir destDir : fpath) : M error :=
  filepath_Walk fuel srcDir (copyDirectory_func srcDir destDir).

Definition ts_timeout : Z := 30 * 1000.
Definition js_timeout : Z := 60 * 1000.

(** executeTypescript runs a TypeScript file by creating a unique folder
    and copying the necessary files *)
Definition executeTypescript (fuel : nat) (filePath : fpath) : M (string * string * error) :=
  (* Step 1 *)
  let* uuidFolder := uuid_New_String in
  (* Step 2 *)
  let* (originalDir, err) := os_Getwd in
  match err with
  | Some e => ret ("", "", Errorf "failed to get current directory: " e)
  | None =>
  (* Step 3 *)
  let* err := os_Chdir scratch_root in
  match err with
  | Some e => ret ("", "", Errorf "failed to change directory to /mnt/persistent: " e)
  | None =>
  (* Step 4 *)
  let* err := os_Mkdir (Rel [uuidFolder]) in
  match err with
  | Some e => ret ("", "", Errorf ("failed to create folder " +:+ uuidFolder +:+ ": ") e)
  | None =>
  (* Step 5 *)
  let* err := copyDirectory fuel template_root (filepath_Join scratch_root (Rel [uuidFolder])) in
  match err with
  | Some e => ret ("", "", Errorf ("failed to copy files to " +:+ uuidFolder +:+ ": ") e)
  | None =>
  (* Step 6 *)
  let* err := os_Chdir (filepath_Join scratch_root (Rel [uuidFolder])) in
  match err with
  | Some e => ret ("", "", Errorf ("failed to change directory to " +:+ uuidFolder +:+ ": ") e)
  | None =>
  (* Step 7 *)
  let* err := copyFile filePath (Rel ["index.ts"]) in
  match err with
  | Some e => ret ("", "", Errorf ("failed to copy file " +:+ path_string filePath
                                    +:+ " to index.ts: ") e)
  | None =>
  (* Step 8 *)
  let* ctx := context_WithTimeout ts_timeout in
  let* r :=
    (let cmd := exec_CommandContext ctx "ts-node" ["index.ts"] in
     let* (cmd, err) := cmd_Start cmd in
     match err with
     | Some e => ret ("", "", Errorf "failed to start ts-node: " e)
     | None =>
     let* err := cmd_Wait cmd in
     let* cerr := ctx_Err ctx in
     if bool_decide (cerr = Some "context deadline exceeded")
     then ret ("", "", Some "execution timeout after 30 seconds")
     else
     match err with
     | Some e =>
         let* out := Buffer_String cmd Stdout in
         let* errout := Buffer_String cmd Stderr in
         ret (out, errout, Errorf "failed to run ts-node: " e)
     | None =>
     (* Step 9 *)
     let* err := os_Chdir originalDir in
     match err with
     | Some e => ret ("", "", Errorf "failed to change back to original directory: " e)
     | None =>
     (* Step 10 *)
     let* err := os_RemoveAll (filepath_Join scratch_root (Rel [uuidFolder])) in
     do match err with
        | Some e => log_Printf ("Warning: failed to delete folder " +:+ uuidFolder
                                +:+ ": " +:+ e)
        | None => ret tt
        end ;;
     let* out := Buffer_String cmd Stdout in
     let* errout := Buffer_String cmd Stderr in
     ret (out, errout, None)
     end end end) in
  do cancel ctx ;; ret r
  end end end end end end.

Definition handleTypeScriptExecution (fuel : nat) (filePath : fpath)
  : M (string * string * error) :=
  executeTypescript fuel filePath.

Definition handleJavaScriptExecution (filePath : fpath) : M (string * string * error) :=
  let* ctx := context_WithTimeout js_timeout in
  let* r :=
    (let cmd := exec_CommandContext ctx "node" [path_string filePath] in
     let* (stdoutPipe, err) := cmd_Pipe cmd Stdout in
     match err with
     | Some e => ret ("", "", Errorf "error while obtaining stdout pipe: " e)
     | None =>
     let* (stderrPipe, err) := cmd_Pipe cmd Stderr in
     match err with
     | Some e => ret ("", "", Errorf "error while obtaining stderr pipe: " e)
     | None =>
     let* (cmd, err) := cmd_Start cmd in
     match err with
     | Some e => ret ("", "", Errorf "error while starting command: " e)
     | None =>
     let* (stdout, err) := io_ReadAll cmd stdoutPipe in
     match err with
     | Some e => ret ("", "", Errorf "error while reading stdout: " e)
     | None =>
     let* (stderr, err) := io_ReadAll cmd stderrPipe in
     match err with
     | Some e => ret ("", "", Errorf "error while reading stderr: " e)
     | None =>
     let* err := cmd_Wait cmd in
     let* cerr := ctx_Err ctx in
     if bool_decide (cerr = Some "context deadline exceeded")
     then ret ("", "", Some "command timed out after 10 seconds")
     else
     match err with
     | Some e => ret ("", "", Errorf "command execution error: " e)
     | None => ret (stdout, stderr, None)
     end end end end end end) in
  do cancel ctx ;; ret r.

Fixpoint isLanguageSupported (language : string) (supportedLanguages : list string) : bool :=
  match supportedLanguages with
  | [] => false
  | lang :: rest =>
      if bool_decide (lang = language) then true
      else isLanguageSupported language rest
  end.

(** *** The handler *)

Record Request := {
  r_Method : string;
  r_Body : string;          (* what [io.ReadAll(r.Body)] returns *)
  r_BodyErr : error;
}.

Record Response := {
  status : Z;
  content_type : string;
  body : string;
}.

Definition dq : string := String "034"%char "".
Definition quoted (s : string) : string := dq +:+ s +:+ dq.

(** The literal [{"error": "<msg>"}]. *)
Definition error_json (msg : string) : string :=
  "{" +:+ quoted "error" +:+ ": " +:+ quoted msg +:+ "}".

(** [http.Error] *)
Definition http_Error (msg : string) (code : Z) : Response :=
  {| status := code; content_type := "text/plain; charset=utf-8";
     body := msg +:+ String "010"%char "" |}.

(** [fmt.Sprintf] of the success envelope. *)
Definition success_body (stdout stderr : string) (elapsed : Z) : string :=
  "{" +:+ quoted "stdout" +:+ ": " +:+ quoted stdout +:+ ", "
      +:+ quoted "stderr" +:+ ": " +:+ quoted stderr +:+ ", "
      +:+ quoted "execTime" +:+ ": " +:+ quoted (pretty elapsed) +:+ "}".

Definition codeExecHandler (fuel : nat) (r : Request) : M Response :=
  let supportedLanguages := ["javascript"; "typescript"] in
  if negb (bool_decide (r_Method r = "POST"))
  then ret (http_Error (error_json "Invalid request method") 405)
  else
  match r_BodyErr r with
  | Some _ => ret (http_Error (error_json "Unable to read request body") 400)
  | None =>
  match e_unmarshal E (r_Body r) with
  | None => ret (http_Error (error_json "Invalid JSON format") 400)
  | Some req =>
  let language := Language req in
  let code := Code req in
  do fmt_Printf ("Language: " +:+ language +:+ ", Code: " +:+ code
                 +:+ String "010"%char "") ;;
  if negb (isLanguageSupported language supportedLanguages)
  then ret (http_Error (error_json "Language not supported") 400)
  else
  let* randomUUID := uuid_New_String in
  let filePath :=
    Abs ["mnt"; "persistent";
         randomUUID +:+ default "" (LANGUAGE_EXTENSIONS !! language)] in
  let* start := time_Now in
  let* err := os_WriteFile filePath (Code req) in
  match err with
  | Some e => ret (http_Error (error_json ("Unable to write file: " +:+ e)) 500)
  | None =>
  let run (exec : M (string * string * error)) : M Response :=
    let* (out, err) := exec in
    let (stdout, stderr) := (out : string * string) in
    match err with
    | Some e => ret (http_Error (error_json ("Execution error: " +:+ e)) 500)
    | None =>
    let* err := os_Remove filePath in
    do match err with
       | Some e => log_Printf ("Warning: Unable to delete file " +:+ path_string filePath
                               +:+ ": " +:+ e)
       | None => ret tt
       end ;;
    let* now := time_Now in
    let elapsed := now - start in
    ret {| status := 200; content_type := "application/json";
           body := success_body stdout stderr elapsed |}
    end in
  if bool_decide (language = "javascript")
  then run (handleJavaScriptExecution filePath)
  else if bool_decide (language = "typescript")
  then run (handleTypeScriptExecution fuel filePath)
  else ret (http_Error (error_json "Language not supported") 400)
  end end end.

End Agent.

(** * Reasoning about runs

    [wp m Q w]: when [m] returns from world [w], its result and final world
    satisfy [Q]. *)

Definition wp {A} (m : M A) (Q : A -> world -> Prop) (w : world) : Prop :=
  match m w with
  | Some (a, w') => Q a w'
  | None => True
  end.

(** [m] returns from every world. *)
Definition total {A} (m : M A) : Prop :=
  forall w, exists a w', m w = Some (a, w').

(** [m] returns from [w], with a result and a final world that satisfy [Q]. *)
Definition returns {A} (m : M A) (Q : A -> world -> Prop) (w : world) : Prop :=
  exists a w', m w = Some (a, w') /\ Q a w'.

(** The calls made between [w] and [w'], all of them of kind [P]; the clock
    has advanced by exactly their durations. *)
Definition extends (P : event -> Prop) (w w' : world) : Prop :=
  exists evs,
    w_trace w' = w_trace w ++ evs /\
    w_clock w' = w_clock w + total_duration evs /\
    Forall (fun e => P e.1) evs.

(** The calls of file staging: they touch files, never the working
    directory or a process. *)
Definition is_fs_event (ev : event) : Prop :=
  match ev with
  | EvMkdirAll _ | EvLstat _ | EvReadDir _ | EvOpen _ | EvCreate _
  | EvCopy _ _ | EvSync _ | EvClose _ => True
  | _ => False
  end.

Definition quiet (w w' : world) : Prop :=
  w_cwd w' = w_cwd w /\ w_children w' = w_children w /\ extends is_fs_event w w'.

(** A staging step that begins with the call [first]. *)
Definition staged (first : event) (w w' : world) : Prop :=
  w_cwd w' = w_cwd w /\ w_children w' = w_children w /\
  exists d evs,
    w_trace w' = w_trace w ++ (first, d) :: evs /\
    w_clock w' = w_clock w + d + total_duration evs /\
    Forall (fun e => is_fs_event e.1) evs.

(** What a run of a language pipeline leaves behind. [js_run] and [ts_run]
    relate the world before, the result, and the world after: the calls
    made, the clock, and the child that was spawned, if any. *)
Definition js_run (filePath : fpath) (w : world) (r : string * string * error)
    (w' : world) (evs : list (event * Z)) : Prop :=
    w_trace w' = w_trace w ++ evs /\
    w_clock w' = w_clock w + total_duration evs /\
    w_cwd w' = w_cwd w /\
    w_fs w' = w_fs w /\
    (forall p d, (EvChdir p, d) ∉ evs) /\
    ((w_children w' = w_children w /\
      (forall pid d, (EvWait pid, d) ∉ evs) /\ r.2 <> None) \/
     (exists c,
        w_children w' = w_children w ++ [c] /\
        c_argv c = ["node"; path_string filePath] /\
        c_Dir c = None /\
        c_workdir c = w_cwd w /\
        c_ctx c = {| ctx_created := w_clock w; ctx_timeout := js_timeout;
                     ctx_slot := length (w_children w) |} /\
        c_state c <> Running /\
        (forall pid d, (EvWait pid, d) ∈ evs ->
           pid = length (w_children w) /\
           (ctx_deadline (c_ctx c) <= w_clock w' <->
            r = ("", "", Some "command timed out after 10 seconds")) /\
           (overruns c ->
              c_state c = Killed /\ ctx_deadline (c_ctx c) <= w_clock w')) /\
        (r.2 = None ->
           r.1 = (p_stdout (c_beh c), p_stderr (c_beh c)) /\
           exists d, (EvWait (length (w_children w)), d) ∈ evs))).

Definition ts_run (w : world) (r : string * string * error) (w' : world)
    (evs : list (event * Z)) : Prop :=
    w_trace w' = w_trace w ++ evs /\
    w_clock w' = w_clock w + total_duration evs /\
    ((w_children w' = w_children w /\
      (forall pid d, (EvWait pid, d) ∉ evs) /\ r.2 <> None) \/
     (exists c u,
        w_children w' = w_children w ++ [c] /\
        c_argv c = ["ts-node"; "index.ts"] /\
        c_Dir c = None /\
        c_workdir c = ["mnt"; "persistent"; u] /\
        (exists d, (EvChdir (Abs ["mnt"; "persistent"; u]), d) ∈ evs) /\
        ctx_timeout (c_ctx c) = ts_timeout /\
        ctx_slot (c_ctx c) = length (w_children w) /\
        c_state c <> Running /\
        (forall pid d, (EvWait pid, d) ∈ evs ->
           pid = length (w_children w) /\
           (overruns c ->
              c_state c = Killed /\
              r = ("", "", Some "execution timeout after 30 seconds"))) /\
        (r.2 = None ->
           r.1 = (p_stdout (c_beh c), p_stderr (c_beh c)) /\
           w_cwd w' = w_cwd w /\
           (exists d, (EvMkdir (Rel [u]), d) ∈ evs) /\
           (exists d, (EvLstat template_root, d) ∈ evs) /\
           (exists d, (EvWait (length (w_children w)), d) ∈ evs) /\
           (exists d, (EvRemoveAll (Abs ["mnt"; "persistent"; u]), d) ∈ evs)))).

(** What a request leaves behind. Either it is turned down before a
    pipeline runs ([turned_down]), or a pipeline ran on the staged entry
    file ([pipeline_ran]). *)
Definition entry_file (u language : string) : fpath :=
  Abs ["mnt"; "persistent"; u +:+ default "" (LANGUAGE_EXTENSIONS !! language)].

Definition is_prelude_event (ev : event) : Prop :=
  match ev with
  | EvPrint _ | EvUUID | EvWriteFile _ => True
  | _ => False
  end.

Definition turned_down (w : world) (resp : Response) (w' : world) : Prop :=
  status resp <> 200 /\
  w_fs w' = w_fs w /\ w_cwd w' = w_cwd w /\ w_children w' = w_children w /\
  extends is_prelude_event w w'.

Definition staged_world (req : CodeExecRequest) (u : string) (d0 d1 d2 : Z)
    (w : world) : world :=
  set_fs (<[ ["mnt"; "persistent";
              u +:+ default "" (LANGUAGE_EXTENSIONS !! Language req)]
             := File (Code req) false ]> (w_fs w))
    (log_event (EvWriteFile (entry_file u (Language req))) d2
       (log_event EvUUID d1
          (log_event (EvPrint ("Language: " +:+ Language req +:+ ", Code: " +:+ Code req
                               +:+ String "010"%char "")) d0 w))).

Definition pipeline_ran (E : env) (r : Request) (w : world) (resp : Response)
    (w' : world) : Prop :=
  exists req u d0 d1 d2 res w2 evs2,
    e_unmarshal E (r_Body r) = Some req /\
    0 <= d0 /\ 0 <= d1 /\ 0 <= d2 /\
    ((Language req = "javascript" /\
      js_run (entry_file u (Language req)) (staged_world req u d0 d1 d2 w)
             res w2 evs2) \/
     (Language req = "typescript" /\
      ts_run (staged_world req u d0 d1 d2 w) res w2 evs2)) /\
    match res.2 with
    | Some e =>
        resp = http_Error (error_json ("Execution error: " +:+ e)) 500 /\ w' = w2
    | None =>
        exists d3 tail,
          w_trace w' = w_trace w2 ++ (EvRemove (entry_file u (Language req)), d3) :: tail /\
          (tail = [] \/ exists s d4, tail = [(EvLog s, d4)]) /\
          w_clock w' = w_clock w2 + d3 + total_duration tail /\
          w_cwd w' = w_cwd w2 /\ w_children w' = w_children w2 /\
          resp = {| status := 200; content_type := "application/json";
                    body := success_body res.1.1 res.1.2
                              (w_clock w' - (w_clock w + d0 + d1)) |}
    end.



(** * The JSON encoding of the success envelope

    The encoding that [success_body] is compared with: the same object, with
    its string values escaped as JSON requires (RFC 8259: the double quote,
    the backslash and the control characters below U+0020). *)







(** * Trees in the file system *)

(** Every entry lies in a directory. *)
Definition fs_wf (fs : gmap (list string) node) : Prop :=
  forall k v, fs !! k = Some v -> is_dir (fs_lookup fs (parent k)) = true.

(** Neither path lies at or below the other. *)
Definition apart (p q : list string) : Prop :=
  ~ p `prefix_of` q /\ ~ q `prefix_of` p.

(** [r] is reached from [p] through directories only. *)
Definition reachable (fs : gmap (list string) node) (p r : list string) : Prop :=
  forall r1 r2, r = r1 ++ r2 -> r2 <> [] -> fs !! (p ++ r1) = Some Dir.

(** The copy of an entry: a directory for a directory, a synced file with
    the same bytes for a file. *)
Definition mirrored (n : node) (o : option node) : Prop :=
  match n with
  | Dir => o = Some Dir
  | File data _ => o = Some (File data true)
  end.

(** How a walk below [q] may change the file system: entries at or below
    [q], and directories created above [q] where nothing was. *)
Definition changed_within (q : list string) (fs fs' : gmap (list string) node) : Prop :=
  forall k,
    fs' !! k = fs !! k \/
    q `prefix_of` k \/
    (k `prefix_of` q /\ fs !! k = None /\ fs' !! k = Some Dir).

(** The path of the entry [rel] below [p], as the walk builds it. *)
Definition sub (p : fpath) (rel : list string) : fpath := filepath_Join p (Rel rel).

(** Fuel enough for a walk from [p]: more than the depth of any entry. *)
Definition deep_enough (fs : gmap (list string) node) (p : list string) (fuel : nat)
  : Prop :=
  forall k, is_Some (fs !! k) -> p `prefix_of` k -> (length k < length p + fuel)%nat.

(** Nothing is in the way of a copy to [q]: what exists above [q] are
    directories, and nothing exists below it. *)
Definition dest_free (fs : gmap (list string) node) (q : list string) : Prop :=
  (forall k, k `prefix_of` q -> fs !! k = None \/ fs !! k = Some Dir) /\
  (forall k, q `prefix_of` k -> k <> q -> fs !! k = None).

(** The source tree at [s], as it was in [fs0], is still what [fs] holds. *)
Definition src_kept (fs0 : gmap (list string) node) (s : list string)
    (fs : gmap (list string) node) : Prop :=
  forall r, fs !! (s ++ r) = fs0 !! (s ++ r).

(** Everything reached from the entry [rel] of the source has its copy at
    the same place below the destination. *)
Definition mirror_sub (fs0 : gmap (list string) node) (s q rel : list string)
    (fs' : gmap (list string) node) : Prop :=
  forall r n,
    reachable fs0 (s ++ rel) r -> fs0 !! (s ++ rel ++ r) = Some n ->
    mirrored n (fs' !! (q ++ rel ++ r)).

(** What the walk of the entry [rel] guarantees. *)
Definition walk_post (fs0 : gmap (list string) node) (cwd0 s q rel : list string)
    (w : world) (err : error) (w' : world) : Prop :=
  w_cwd w' = cwd0 /\
  changed_within (q ++ rel) (w_fs w) (w_fs w') /\
  (err = None -> mirror_sub fs0 s q rel (w_fs w')).


(** The two conditions above, as checks on a given file system. *)
Definition deep_enoughb (fs : gmap (list string) node) (p : list string) (fuel : nat)
  : bool :=
  bool_decide
    (map_Forall (fun k _ => p `prefix_of` k -> (length k < length p + fuel)%nat) fs).

Definition dest_freeb (fs : gmap (list string) node) (q : list string) : bool :=
  bool_decide
    (map_Forall (fun k v => (k `prefix_of` q -> v = Dir) /\ (q `prefix_of` k -> k = q)) fs).

(** * A concrete machine *)

(** A child that runs for ten milliseconds and exits with [code]. *)
Definition exits_with (code : Z) (out err : string) : proc :=
  {| p_start_err := None; p_runtime := Some 10%N; p_exit := code;
     p_stdout := out; p_stderr := err |}.

(** A child that never exits by itself. *)
Definition spins (out : string) : proc :=
  {| p_start_err := None; p_runtime := None; p_exit := 0;
     p_stdout := out; p_stderr := EmptyString |}.

(** An operating system in which no call fails and every call takes one
    millisecond; request bodies decode to a request in [lang] whose code is
    the body; every child behaves as [beh]. *)
Definition calm (lang : string) (beh : proc) : env :=
  {| e_uuid := fun n => "u" +:+ pretty n;
     e_fault := fun _ => None;
     e_cost := fun _ => 1%N;
     e_proc := fun _ _ _ => beh;
     e_unmarshal := fun b => Some {| Language := lang; Code := b |} |}.

(** The template with one file and one directory holding one file, an
    empty scratch root, and the directory the server was started in. *)
Definition disk : gmap (list string) node :=
  <[ ["tmp"] := Dir ]>
  (<[ ["tmp"; "dummy-pkg-ts"] := Dir ]>
  (<[ ["tmp"; "dummy-pkg-ts"; "package.json"] := File "{}" true ]>
  (<[ ["tmp"; "dummy-pkg-ts"; "node_modules"] := Dir ]>
  (<[ ["tmp"; "dummy-pkg-ts"; "node_modules"; "x.js"] := File "x" true ]>
  (<[ ["mnt"] := Dir ]>
  (<[ ["mnt"; "persistent"] := Dir ]>
  (<[ ["app"] := Dir ]> ∅))))))).

Definition boot : world :=
  {| w_fs := disk; w_cwd := ["app"]; w_clock := 0; w_trace := []; w_children := [] |}.

Definition post (b : string) : Request :=
  {| r_Method := "POST"; r_Body := b; r_BodyErr := None |}.

(** The request that [staged_world] stages on [boot], in [lang]. *)
Definition sample (lang : string) : CodeExecRequest :=
  {| Language := lang; Code := "code" |}.

(** A call that removes something from the file system. *)
Definition is_removal (ev : event) : bool :=
  match ev with
  | EvRemove _ | EvRemoveAll _ => true
  | _ => false
  end.

(** The calls of a trace that satisfy [f]. *)
Definition calls (f : event -> bool) (w : world) : list event :=
  filter (fun ev => f ev = true) (w_trace w).*1.


(** A call of the supervised run: the spawn and the wait. *)
Definition is_supervision (ev : event) : bool :=
  match ev with
  | EvStart _ | EvWait _ => true
  | _ => false
  end.

(** The calls of a trace that satisfy [f], with their durations. *)
Definition timed_calls (f : event -> bool) (w : world) : list (event * Z) :=
  filter (fun e => f e.1 = true) (w_trace w).

(** * Further notions *)

(** The answers the handler gives: an error line written by [http.Error]
    with one of three statuses, or the success envelope. *)
Definition is_error_answer (resp : Response) : Prop :=
  exists msg code,
    resp = http_Error (error_json msg) code /\ (code = 400 \/ code = 405 \/ code = 500).

Definition is_success_answer (resp : Response) : Prop :=
  exists out err elapsed,
    resp = {| status := 200; content_type := "application/json";
              body := success_body out err elapsed |}.

(** A request with another method. *)
Definition get_request (b : string) : Request :=
  {| r_Method := "GET"; r_Body := b; r_BodyErr := None |}.

(** A machine with the scratch root and nothing else. *)
Definition bare_disk : gmap (list string) node :=
  <[ ["mnt"] := Dir ]> (<[ ["mnt"; "persistent"] := Dir ]> ∅).

Definition bare : world :=
  {| w_fs := bare_disk; w_cwd := []; w_clock := 0; w_trace := []; w_children := [] |}.

(** A machine without the scratch root. *)
Definition blank : world :=
  {| w_fs := ∅; w_cwd := []; w_clock := 0; w_trace := []; w_children := [] |}.

(** Nothing that [fs] holds is missing from [fs'], and its directories are
    still directories. *)
Definition keeps (fs fs' : gmap (list string) node) : Prop :=
  forall k,
    (is_Some (fs !! k) -> is_Some (fs' !! k)) /\
    (fs !! k = Some Dir -> fs' !! k = Some Dir).

(** * Proofs *)

(** ** The rules of [wp] *)

Lemma wp_elim {A} (m : M A) Q w a w' : wp m Q w -> m w = Some (a, w') -> Q a w'.
Proof. unfold wp. intros H Hm. now rewrite Hm in H. Qed.

Lemma wp_intro {A} (m : M A) (Q : A -> world -> Prop) w :
  (forall a w', m w = Some (a, w') -> Q a w') -> wp m Q w.
Proof. unfold wp. intros H. destruct (m w) as [[a w']|]; auto. Qed.

Lemma wp_bind {A B} (m : M A) (k : A -> M B) Q w :
  wp m (fun a w' => wp (k a) Q w') w -> wp (bind m k) Q w.
Proof. unfold wp, bind. destruct (m w) as [[a w']|]; auto. Qed.

Lemma wp_mono {A} (m : M A) (Q Q' : A -> world -> Prop) w :
  wp m Q w -> (forall a w', Q a w' -> Q' a w') -> wp m Q' w.
Proof. unfold wp. destruct (m w) as [[a w']|]; auto. Qed.

Lemma wp_ret {A} (a : A) (Q : A -> world -> Prop) w : Q a w -> wp (ret a) Q w.
Proof. auto. Qed.

Lemma wp_get (Q : world -> world -> Prop) w : Q w w -> wp get Q w.
Proof. auto. Qed.

Lemma wp_modify f (Q : unit -> world -> Prop) w : Q tt (f w) -> wp (modify f) Q w.
Proof. auto. Qed.

Lemma cost_nonneg E w : 0 <= cost E w.
Proof. unfold cost. lia. Qed.

(** The duration and the failure of a call are the environment's: a run is
    followed for every choice of them. *)
Lemma wp_emit E ev (Q : error -> world -> Prop) w :
  (forall d r, 0 <= d -> Q r (log_event ev d w)) -> wp (emit E ev) Q w.
Proof. intros H. apply H, cost_nonneg. Qed.

Lemma wp_emit_after E t ev (Q : error -> world -> Prop) w :
  (forall d r, 0 <= d -> Q r (log_event ev (Z.max 0 (t - w_clock w) + d) w)) ->
  wp (emit_after E t ev) Q w.
Proof. intros H. apply H, cost_nonneg. Qed.

Lemma wp_uuid E (Q : string -> world -> Prop) w :
  (forall d u, 0 <= d -> Q u (log_event EvUUID d w)) ->
  wp (uuid_New_String E) Q w.
Proof. intros H. apply H, cost_nonneg. Qed.

Ltac wp_simpl :=
  cbn beta iota zeta delta
    [fst snd w_fs w_cwd w_clock w_trace w_children
     set_fs log_event set_cwd set_children
     cmd_ctx cmd_Args cmd_Dir cmd_Process exec_CommandContext
     ctx_created ctx_timeout ctx_slot
     c_argv c_Dir c_workdir c_ctx c_start c_beh c_state set_c_state] in *.

Ltac wp_step :=
  lazymatch goal with
  | |- wp (bind _ _) _ _ => apply wp_bind
  | |- wp (ret _) _ _ => apply wp_ret
  | |- wp get _ _ => apply wp_get
  | |- wp (modify _) _ _ => apply wp_modify
  | |- wp (emit _ _) _ _ => apply wp_emit; intros ?d ?r ?Hd
  | |- wp (emit_after _ _ _) _ _ => apply wp_emit_after; intros ?d ?r ?Hd
  | |- wp (uuid_New_String _) _ _ => apply wp_uuid; intros ?d ?u ?Hd
  | |- wp (fmt_Printf _ _) _ _ => unfold fmt_Printf
  | |- wp (log_Printf _ _) _ _ => unfold log_Printf
  | |- wp time_Now _ _ => unfold time_Now
  | |- wp (context_WithTimeout _) _ _ => unfold context_WithTimeout
  | |- wp (ctx_Err _) _ _ => unfold ctx_Err
  | |- wp (match ?x with _ => _ end) _ _ => destruct x eqn:?
  end; wp_simpl.

Ltac wp_run := repeat wp_step.

(** ** System calls

    A call that fails leaves nothing behind but its entry in the trace. *)

Section Syscalls.
Variable E : env.

Lemma fs_lookup_File fs p d b :
  fs_lookup fs p = Some (File d b) <-> p <> [] /\ fs !! p = Some (File d b).
Proof. destruct p; simpl; split; try intros [? ?]; try split; congruence. Qed.

Lemma fs_lookup_ne fs p : p <> [] -> fs_lookup fs p = fs !! p.
Proof. destruct p; simpl; congruence. Qed.

Lemma wp_os_Getwd (Q : fpath * error -> world -> Prop) w :
  (forall d e, 0 <= d -> Q (Rel [], Some e) (log_event EvGetwd d w)) ->
  (forall d, 0 <= d -> Q (Abs (w_cwd w), None) (log_event EvGetwd d w)) ->
  wp (os_Getwd E) Q w.
Proof. intros He Hok. unfold os_Getwd. wp_run; eauto. Qed.

Lemma wp_os_Chdir dir (Q : error -> world -> Prop) w :
  (forall d e, 0 <= d -> Q (Some e) (log_event (EvChdir dir) d w)) ->
  (forall d, 0 <= d ->
   is_dir (fs_lookup (w_fs w) (resolve (w_cwd w) dir)) = true ->
   Q None (set_cwd (resolve (w_cwd w) dir) (log_event (EvChdir dir) d w))) ->
  wp (os_Chdir E dir) Q w.
Proof. intros He Hok. unfold os_Chdir. wp_run; eauto. Qed.

Lemma wp_os_Mkdir name (Q : error -> world -> Prop) w :
  (forall d e, 0 <= d -> Q (Some e) (log_event (EvMkdir name) d w)) ->
  (forall d, 0 <= d ->
   fs_lookup (w_fs w) (resolve (w_cwd w) name) = None ->
   is_dir (fs_lookup (w_fs w) (parent (resolve (w_cwd w) name))) = true ->
   Q None (set_fs (<[resolve (w_cwd w) name := Dir]> (w_fs w))
                  (log_event (EvMkdir name) d w))) ->
  wp (os_Mkdir E name) Q w.
Proof. intros He Hok. unfold os_Mkdir. wp_run; eauto. Qed.

Lemma wp_os_MkdirAll path (Q : error -> world -> Prop) w :
  (forall d e, 0 <= d -> Q (Some e) (log_event (EvMkdirAll path) d w)) ->
  (forall d fs', 0 <= d ->
   mkdir_all (w_fs w) [] (resolve (w_cwd w) path) = Some fs' ->
   Q None (set_fs fs' (log_event (EvMkdirAll path) d w))) ->
  wp (os_MkdirAll E path) Q w.
Proof. intros He Hok. unfold os_MkdirAll. wp_run; eauto. Qed.

Lemma wp_os_Lstat name (Q : option FileInfo * error -> world -> Prop) w :
  (forall d e, 0 <= d -> Q (None, Some e) (log_event (EvLstat name) d w)) ->
  (forall d n, 0 <= d ->
   fs_lookup (w_fs w) (resolve (w_cwd w) name) = Some n ->
   Q (Some {| IsDir := is_dir (Some n) |}, None) (log_event (EvLstat name) d w)) ->
  wp (os_Lstat E name) Q w.
Proof. intros He Hok. unfold os_Lstat. wp_run; eauto. Qed.

Lemma wp_readDirNames dirname (Q : list string * error -> world -> Prop) w :
  (forall d e, 0 <= d -> Q ([], Some e) (log_event (EvReadDir dirname) d w)) ->
  (forall d, 0 <= d ->
   is_dir (fs_lookup (w_fs w) (resolve (w_cwd w) dirname)) = true ->
   Q (dir_names (w_fs w) (resolve (w_cwd w) dirname), None)
     (log_event (EvReadDir dirname) d w)) ->
  wp (readDirNames E dirname) Q w.
Proof. intros He Hok. unfold readDirNames. wp_run; eauto. Qed.

Lemma wp_os_Open name (Q : list string * error -> world -> Prop) w :
  (forall d e, 0 <= d -> Q ([], Some e) (log_event (EvOpen name) d w)) ->
  (forall d n, 0 <= d ->
   fs_lookup (w_fs w) (resolve (w_cwd w) name) = Some n ->
   Q (resolve (w_cwd w) name, None) (log_event (EvOpen name) d w)) ->
  wp (os_Open E name) Q w.
Proof. intros He Hok. unfold os_Open. wp_run; eauto. Qed.

Lemma wp_os_Create name (Q : list string * error -> world -> Prop) w :
  (forall d e, 0 <= d -> Q ([], Some e) (log_event (EvCreate name) d w)) ->
  (forall d, 0 <= d ->
   fs_lookup (w_fs w) (resolve (w_cwd w) name) <> Some Dir ->
   is_dir (fs_lookup (w_fs w) (parent (resolve (w_cwd w) name))) = true ->
   Q (resolve (w_cwd w) name, None)
     (set_fs (<[resolve (w_cwd w) name := File "" false]> (w_fs w))
             (log_event (EvCreate name) d w))) ->
  wp (os_Create E name) Q w.
Proof. intros He Hok. unfold os_Create. wp_run; eauto; apply Hok; congruence. Qed.

Lemma wp_io_Copy dst src (Q : Z * error -> world -> Prop) w :
  (forall d e, 0 <= d -> Q (0, Some e) (log_event (EvCopy dst src) d w)) ->
  (forall d data b, 0 <= d ->
   fs_lookup (w_fs w) src = Some (File data b) ->
   Q (Z.of_nat (String.length data), None)
     (set_fs (<[dst := File data false]> (w_fs w))
             (log_event (EvCopy dst src) d w))) ->
  wp (io_Copy E dst src) Q w.
Proof. intros He Hok. unfold io_Copy. wp_run; eauto. Qed.

Lemma wp_file_Sync f (Q : error -> world -> Prop) w :
  (forall d e, 0 <= d -> Q (Some e) (log_event (EvSync f) d w)) ->
  (forall d data b, 0 <= d ->
   w_fs w !! f = Some (File data b) ->
   Q None (set_fs (<[f := File data true]> (w_fs w)) (log_event (EvSync f) d w))) ->
  (forall d, 0 <= d ->
   (forall data b, w_fs w !! f <> Some (File data b)) ->
   Q None (log_event (EvSync f) d w)) ->
  wp (file_Sync E f) Q w.
Proof.
  intros He Hok Hno. unfold file_Sync.
  wp_run; eauto; apply Hno; auto; intros ? ? ?; congruence.
Qed.

Lemma wp_file_Close f (Q : error -> world -> Prop) w :
  (forall d r, 0 <= d -> Q r (log_event (EvClose f) d w)) -> wp (file_Close E f) Q w.
Proof. intros H. unfold file_Close. wp_run. auto. Qed.

Lemma wp_os_WriteFile name data (Q : error -> world -> Prop) w :
  (forall d e, 0 <= d -> Q (Some e) (log_event (EvWriteFile name) d w)) ->
  (forall d, 0 <= d ->
   fs_lookup (w_fs w) (resolve (w_cwd w) name) <> Some Dir ->
   is_dir (fs_lookup (w_fs w) (parent (resolve (w_cwd w) name))) = true ->
   Q None (set_fs (<[resolve (w_cwd w) name := File data false]> (w_fs w))
                  (log_event (EvWriteFile name) d w))) ->
  wp (os_WriteFile E name data) Q w.
Proof. intros He Hok. unfold os_WriteFile. wp_run; eauto; apply Hok; congruence. Qed.

Lemma wp_os_Remove name (Q : error -> world -> Prop) w :
  (forall d e, 0 <= d -> Q (Some e) (log_event (EvRemove name) d w)) ->
  (forall d n, 0 <= d ->
   fs_lookup (w_fs w) (resolve (w_cwd w) name) = Some n ->
   Q None (set_fs (delete (resolve (w_cwd w) name) (w_fs w))
                  (log_event (EvRemove name) d w))) ->
  wp (os_Remove E name) Q w.
Proof. intros He Hok. unfold os_Remove. wp_run; eauto. Qed.

Lemma wp_os_RemoveAll path (Q : error -> world -> Prop) w :
  (forall d e, 0 <= d -> Q (Some e) (log_event (EvRemoveAll path) d w)) ->
  (forall d, 0 <= d ->
   Q None (set_fs (fs_remove_all (w_fs w) (resolve (w_cwd w) path))
                  (log_event (EvRemoveAll path) d w))) ->
  wp (os_RemoveAll E path) Q w.
Proof. intros He Hok. unfold os_RemoveAll. wp_run; eauto. Qed.

Lemma wp_cmd_Pipe cmd s (Q : stream * error -> world -> Prop) w :
  (forall d r, 0 <= d -> Q (s, r) (log_event EvPipe d w)) -> wp (cmd_Pipe E cmd s) Q w.
Proof. intros H. unfold cmd_Pipe. wp_run. auto. Qed.

End Syscalls.

(** ** Child processes *)

Lemma lookup_snoc {A} (l : list A) (x : A) : (l ++ [x]) !! length l = Some x.
Proof. now rewrite list_lookup_middle. Qed.

Lemma insert_snoc {A} (l : list A) (x y : A) : <[length l := y]> (l ++ [x]) = l ++ [y].
Proof.
  rewrite insert_app_r_alt by lia. now rewrite Nat.sub_diag.
Qed.

Lemma child_end_not_running c : (child_end c).2 <> Running.
Proof.
  unfold child_end. destruct (p_runtime (c_beh c)); [case_match|]; simpl; congruence.
Qed.

Lemma child_end_killed c : overruns c -> child_end c = (ctx_deadline (c_ctx c), Killed).
Proof.
  unfold overruns, child_end. destruct (p_runtime (c_beh c)); [|done].
  intros H. case_match; [lia|done].
Qed.

Lemma child_end_exited c d :
  p_runtime (c_beh c) = Some d -> c_start c + Z.of_N d < ctx_deadline (c_ctx c) ->
  child_end c = (c_start c + Z.of_N d, Exited (p_exit (c_beh c))).
Proof.
  unfold child_end. intros -> H. case_match; [done|lia].
Qed.

Lemma cancel_child_settled now c : c_state c <> Running -> cancel_child now c = c.
Proof.
  unfold cancel_child, settle. destruct (c_state c) eqn:Hs; try congruence;
    rewrite Hs; reflexivity.
Qed.

Section Processes.
Variable E : env.

Lemma wp_cmd_Start cmd (Q : Cmd * error -> world -> Prop) w :
  (forall d e, 0 <= d -> Q (cmd, Some e) (log_event (EvStart (cmd_Args cmd)) d w)) ->
  (forall d workdir beh, 0 <= d ->
     w_clock w < ctx_deadline (cmd_ctx cmd) ->
     workdir = match cmd_Dir cmd with
               | Some d => resolve (w_cwd w) d
               | None => w_cwd w
               end ->
     beh = e_proc E (w_fs w) workdir (cmd_Args cmd) ->
     p_start_err beh = None ->
     Q ({| cmd_ctx := cmd_ctx cmd; cmd_Args := cmd_Args cmd; cmd_Dir := cmd_Dir cmd;
           cmd_Process := Some (length (w_children w)) |}, None)
       (set_children
          (w_children w ++
             [ {| c_argv := cmd_Args cmd; c_Dir := cmd_Dir cmd; c_workdir := workdir;
                  c_ctx := cmd_ctx cmd; c_start := w_clock w + d;
                  c_beh := beh; c_state := Running |} ])
          (log_event (EvStart (cmd_Args cmd)) d w))) ->
  wp (cmd_Start E cmd) Q w.
Proof.
  intros He Hok. unfold cmd_Start. wp_run; eauto.
  eapply Hok; eauto. apply Z.leb_gt. assumption.
Qed.

Lemma wp_await pid ev (Q : option child * error -> world -> Prop) w :
  (forall d r c, 0 <= d ->
     w_children w !! pid = Some c -> c_state c = Running ->
     Q (Some (set_c_state (child_end c).2 c), r)
       (set_children (<[pid := set_c_state (child_end c).2 c]> (w_children w))
          (log_event ev (Z.max 0 ((child_end c).1 - w_clock w) + d) w))) ->
  (forall d r c, 0 <= d ->
     w_children w !! pid = Some c -> c_state c <> Running ->
     Q (Some c, r) (log_event ev d w)) ->
  (forall d r, 0 <= d ->
     w_children w !! pid = None -> Q (None, r) (log_event ev d w)) ->
  wp (await E pid ev) Q w.
Proof.
  intros Hrun Hdone Hnone. unfold await. wp_run; eauto.
  all: apply Hdone; auto; congruence.
Qed.

Lemma wp_cancel ctx (Q : unit -> world -> Prop) w :
  (forall c, w_children w !! ctx_slot ctx = Some c -> c_state c = Running ->
     Q tt (set_children (<[ctx_slot ctx := cancel_child (w_clock w) c]> (w_children w)) w)) ->
  Q tt w ->
  wp (cancel ctx) Q w.
Proof.
  intros Hrun Hsame. unfold cancel. wp_run; auto.
  destruct (decide (c_state c = Running)) as [Hr|Hr]; [now apply Hrun|].
  rewrite cancel_child_settled by done. rewrite list_insert_id by done.
  now destruct w.
Qed.

End Processes.

(** One step of symbolic execution through a system call. *)
Ltac wp_sys :=
  lazymatch goal with
  | |- wp (os_Getwd _) _ _ => apply wp_os_Getwd; [intros ?d ?e ?Hd | intros ?d ?Hd]
  | |- wp (os_Chdir _ _) _ _ =>
      apply wp_os_Chdir; [intros ?d ?e ?Hd | intros ?d ?Hd ?Hdir]
  | |- wp (os_Mkdir _ _) _ _ =>
      apply wp_os_Mkdir; [intros ?d ?e ?Hd | intros ?d ?Hd ?Hfresh ?Hpar]
  | |- wp (os_MkdirAll _ _) _ _ =>
      apply wp_os_MkdirAll; [intros ?d ?e ?Hd | intros ?d ?fs' ?Hd ?Hmk]
  | |- wp (os_Lstat _ _) _ _ =>
      apply wp_os_Lstat; [intros ?d ?e ?Hd | intros ?d ?n ?Hd ?Hstat]
  | |- wp (readDirNames _ _) _ _ =>
      apply wp_readDirNames; [intros ?d ?e ?Hd | intros ?d ?Hd ?Hdir]
  | |- wp (os_Open _ _) _ _ =>
      apply wp_os_Open; [intros ?d ?e ?Hd | intros ?d ?n ?Hd ?Hopen]
  | |- wp (os_Create _ _) _ _ =>
      apply wp_os_Create; [intros ?d ?e ?Hd | intros ?d ?Hd ?Hnd ?Hpar]
  | |- wp (io_Copy _ _ _) _ _ =>
      apply wp_io_Copy; [intros ?d ?e ?Hd | intros ?d ?data ?b ?Hd ?Hsrc]
  | |- wp (file_Sync _ _) _ _ =>
      apply wp_file_Sync;
      [intros ?d ?e ?Hd | intros ?d ?data ?b ?Hd ?Hdst | intros ?d ?Hd ?Hno]
  | |- wp (file_Close _ _) _ _ => apply wp_file_Close; intros ?d ?r ?Hd
  | |- wp (os_WriteFile _ _ _) _ _ =>
      apply wp_os_WriteFile; [intros ?d ?e ?Hd | intros ?d ?Hd ?Hnd ?Hpar]
  | |- wp (os_Remove _ _) _ _ =>
      apply wp_os_Remove; [intros ?d ?e ?Hd | intros ?d ?n ?Hd ?Hrm]
  | |- wp (os_RemoveAll _ _) _ _ =>
      apply wp_os_RemoveAll; [intros ?d ?e ?Hd | intros ?d ?Hd]
  | |- wp (cmd_Pipe _ _ _) _ _ => apply wp_cmd_Pipe; intros ?d ?r ?Hd
  | |- wp (cmd_Start _ _) _ _ =>
      apply wp_cmd_Start;
      [intros ?d ?e ?Hd
      | let wd := fresh "workdir" in
        let bh := fresh "beh" in
        intros ?d wd bh ?Hd ?Hlive ?Hwd ?Hbeh ?Hstart; subst bh; subst wd]
  | |- wp (await _ _ _) _ _ =>
      apply wp_await;
      [ intros ?d ?r ?c ?Hd ?Hc ?Hrun | intros ?d ?r ?c ?Hd ?Hc ?Hrun
      | intros ?d ?r ?Hd ?Hc ]
  | |- wp (cancel _) _ _ => apply wp_cancel; [intros ?c ?Hc ?Hrun | ]
  | |- wp (cmd_Wait _ _) _ _ => unfold cmd_Wait
  | |- wp (io_ReadAll _ _ _) _ _ => unfold io_ReadAll
  | |- wp (Buffer_String _ _) _ _ => unfold Buffer_String
  end; wp_simpl.

(** The process table after a spawn: the new child is the last entry. *)
Ltac wp_child :=
  repeat match goal with
  | H : (?l ++ [?x]) !! length ?l = Some ?c |- _ =>
      rewrite lookup_snoc in H; injection H as <-
  | H : (?l ++ [_]) !! length ?l = None |- _ =>
      rewrite lookup_snoc in H; discriminate H
  | H : ?l !! length ?l = Some _ |- _ =>
      rewrite lookup_ge_None_2 in H by lia; discriminate H
  | H : Running <> Running |- _ => congruence
  | H : Running = Running |- _ => clear H
  | H : (child_end _).2 = Running |- _ => now apply child_end_not_running in H
  | H : Exited _ = Running |- _ => discriminate H
  | H : Killed = Running |- _ => discriminate H
  end;
  rewrite ?insert_snoc, ?lookup_snoc in *; wp_simpl.

Ltac wp_all := repeat (first [wp_step | wp_sys]; wp_child).

(** The calls a run has added to the trace. *)
Ltac new_events H :=
  rewrite <- ?app_assoc in H; apply app_inv_head in H; simpl in H; subst.

Ltac no_such_event H :=
  repeat (apply elem_of_cons in H as [H|H]; [try discriminate H|]);
  try (now apply elem_of_nil in H).

(** ** Traces *)

Lemma total_duration_app evs evs' :
  total_duration (evs ++ evs') = total_duration evs + total_duration evs'.
Proof. unfold total_duration. induction evs as [|e evs IH]; simpl; lia. Qed.

Lemma total_duration_cons e evs : total_duration (e :: evs) = e.2 + total_duration evs.
Proof. reflexivity. Qed.

Lemma total_duration_nil : total_duration [] = 0.
Proof. reflexivity. Qed.

Lemma extends_refl P w : extends P w w.
Proof.
  exists []. rewrite app_nil_r. split; [reflexivity|].
  split; [simpl; lia | constructor].
Qed.

Lemma extends_trans P w1 w2 w3 : extends P w1 w2 -> extends P w2 w3 -> extends P w1 w3.
Proof.
  intros (e1 & Ht1 & Hc1 & Hf1) (e2 & Ht2 & Hc2 & Hf2). exists (e1 ++ e2).
  rewrite Ht2, Ht1, Hc2, Hc1, total_duration_app, app_assoc.
  split; [reflexivity|]. split; [lia|]. now apply Forall_app.
Qed.

Lemma extends_weaken (P P' : event -> Prop) w w' :
  (forall e, P e -> P' e) -> extends P w w' -> extends P' w w'.
Proof.
  intros HP (evs & Ht & Hc & Hf). exists evs. repeat split; auto.
  eapply Forall_impl; eauto.
Qed.

(** A leaf of a symbolic run: the final world is an explicit term. *)
Ltac extends_now :=
  unfold extends; wp_simpl; eexists;
  split; [rewrite <- ?app_assoc; simpl; reflexivity |];
  split; [unfold total_duration; simpl; lia |];
  repeat constructor.

Lemma quiet_refl w : quiet w w.
Proof. repeat split. apply extends_refl. Qed.

Lemma quiet_trans w1 w2 w3 : quiet w1 w2 -> quiet w2 w3 -> quiet w1 w3.
Proof.
  intros (? & ? & ?) (? & ? & ?). repeat split; try congruence.
  eapply extends_trans; eauto.
Qed.

Section Staging.
Variable E : env.

Lemma wp_copyFile_quiet src dest w :
  wp (copyFile E src dest) (fun _ w' => quiet w w') w.
Proof.
  unfold copyFile. wp_all.
  all: repeat split; extends_now.
Qed.

Lemma wp_walk_names_quiet rec fn :
  (forall p i w, wp (rec p i) (fun _ w' => quiet w w') w) ->
  (forall p i e w, wp (fn p i e) (fun _ w' => quiet w w') w) ->
  forall names path w,
    wp (walk_names E rec fn path names) (fun _ w' => quiet w w') w.
Proof.
  intros Hrec Hfn names. induction names as [|name rest IH]; intros path w; simpl.
  - apply wp_ret, quiet_refl.
  - wp_step. wp_sys.
    + wp_step. eapply wp_mono; [apply Hfn|]. intros err w1 Hq; simpl.
      assert (quiet w w1) as Hq'.
      { eapply quiet_trans; [|exact Hq]. repeat split; extends_now. }
      destruct err; [apply wp_ret; assumption|].
      eapply wp_mono; [apply IH|]. intros; eapply quiet_trans; eauto.
    + wp_step. eapply wp_mono; [apply Hrec|]. intros err w1 Hq; simpl.
      assert (quiet w w1) as Hq'.
      { eapply quiet_trans; [|exact Hq]. repeat split; extends_now. }
      destruct err; [apply wp_ret; assumption|].
      eapply wp_mono; [apply IH|]. intros; eapply quiet_trans; eauto.
Qed.

Lemma wp_walk_quiet fn :
  (forall p i e w, wp (fn p i e) (fun _ w' => quiet w w') w) ->
  forall fuel path info w,
    wp (walk E fuel fn path info) (fun _ w' => quiet w w') w.
Proof.
  intros Hfn fuel. induction fuel as [|fuel IH]; intros path info w; simpl.
  - exact I.
  - destruct (negb (IsDir info)); [apply Hfn|].
    wp_step. wp_sys.
    + wp_step. eapply wp_mono; [apply Hfn|]. intros err w1 Hq; simpl.
      apply wp_ret. eapply quiet_trans; [|exact Hq]. repeat split; extends_now.
    + wp_step. eapply wp_mono; [apply Hfn|]. intros err w1 Hq; simpl.
      assert (quiet w w1) as Hq'.
      { eapply quiet_trans; [|exact Hq]. repeat split; extends_now. }
      destruct err; [apply wp_ret; assumption|].
      eapply wp_mono; [apply wp_walk_names_quiet; auto|].
      intros; eapply quiet_trans; eauto.
Qed.

Lemma wp_copyDirectory_func_quiet srcDir destDir p i e w :
  wp (copyDirectory_func E srcDir destDir p i e) (fun _ w' => quiet w w') w.
Proof.
  unfold copyDirectory_func. destruct e; [apply wp_ret, quiet_refl|].
  destruct (filepath_Rel srcDir p) as [[rel|] [er|]];
    try (apply wp_ret, quiet_refl).
  destruct (info_IsDir i); [|apply wp_copyFile_quiet].
  wp_all; repeat split; extends_now.
Qed.

Lemma wp_copyDirectory_quiet fuel srcDir destDir w :
  wp (copyDirectory E fuel srcDir destDir) (fun _ w' => quiet w w') w.
Proof.
  unfold copyDirectory, filepath_Walk.
  wp_step. wp_sys.
  - eapply wp_mono; [apply wp_copyDirectory_func_quiet|]. intros err w1 Hq; simpl.
    eapply quiet_trans; [|exact Hq]. repeat split; extends_now.
  - eapply wp_mono; [apply wp_walk_quiet; intros; apply wp_copyDirectory_func_quiet|].
    intros err w1 Hq; simpl.
    eapply quiet_trans; [|exact Hq]. repeat split; extends_now.
Qed.

Lemma staged_intro first d w w1 w' :
  w_cwd w1 = w_cwd w -> w_children w1 = w_children w ->
  w_trace w1 = w_trace w ++ [(first, d)] -> w_clock w1 = w_clock w + d ->
  quiet w1 w' -> staged first w w'.
Proof.
  intros Hcwd Hch Ht Hc (Hcwd' & Hch' & evs & Ht' & Hc' & Hf).
  split; [congruence|]. split; [congruence|]. exists d, evs.
  rewrite Ht', Ht, Hc', Hc, <- app_assoc. auto.
Qed.

Lemma wp_copyFile_staged src dest w :
  wp (copyFile E src dest) (fun _ w' => staged (EvOpen src) w w') w.
Proof.
  unfold copyFile. wp_step. wp_sys.
  - wp_all.
    apply (staged_intro _ d w (log_event (EvOpen src) d w));
      try reflexivity; apply quiet_refl.
  - eapply wp_mono.
    + instantiate (1 := fun _ w' => quiet (log_event (EvOpen src) d w) w').
      wp_all. all: repeat split; extends_now.
    + intros a w' Hq. eapply staged_intro; [..|exact Hq]; reflexivity.
Qed.

Lemma wp_copyDirectory_staged fuel srcDir destDir w :
  wp (copyDirectory E fuel srcDir destDir) (fun _ w' => staged (EvLstat srcDir) w w') w.
Proof.
  unfold copyDirectory, filepath_Walk.
  wp_step. wp_sys.
  - eapply wp_mono; [apply wp_copyDirectory_func_quiet|]. intros err w1 Hq; simpl.
    eapply staged_intro; [..|exact Hq]; reflexivity.
  - eapply wp_mono; [apply wp_walk_quiet; intros; apply wp_copyDirectory_func_quiet|].
    intros err w1 Hq; simpl.
    eapply staged_intro; [..|exact Hq]; reflexivity.
Qed.

End Staging.

(** File staging as one step of a symbolic run: only its frame is kept. *)
Ltac wp_quiet :=
  lazymatch goal with
  | |- wp (copyFile _ _ _) _ _ =>
      eapply wp_mono;
      [apply wp_copyFile_staged | intros ?err ?w1 (?Hcwd & ?Hch & ?Hext)]
  | |- wp (copyDirectory _ _ _ _) _ _ =>
      eapply wp_mono;
      [apply wp_copyDirectory_staged | intros ?err ?w1 (?Hcwd & ?Hch & ?Hext)]
  end; wp_simpl.

Ltac wp_frame :=
  repeat match goal with
  | H : w_cwd ?x = _ |- context [w_cwd ?x] => rewrite H
  | H : w_children ?x = _ |- context [w_children ?x] => rewrite H
  | H : w_cwd ?x = _, H2 : context [w_cwd ?x] |- _ => rewrite H in H2
  | H : w_children ?x = _, H2 : context [w_children ?x] |- _ => rewrite H in H2
  end.

Ltac wp_all ::= repeat (first [wp_step | wp_sys | wp_quiet]; wp_frame; wp_child).

(** All the events of a run, once the frames of its staging steps are
    opened. *)
Ltac open_extends :=
  repeat match goal with
  | H : extends _ _ _ |- _ =>
      let evs := fresh "evs" in
      let Ht := fresh "Ht" in
      let Hc := fresh "Hc" in
      let Hf := fresh "Hf" in
      destruct H as (evs & Ht & Hc & Hf); wp_simpl
  | H : exists d evs, w_trace _ = _ /\ _ |- _ =>
      let d := fresh "d" in
      let evs := fresh "evs" in
      let Ht := fresh "Ht" in
      let Hc := fresh "Hc" in
      let Hf := fresh "Hf" in
      destruct H as (d & evs & Ht & Hc & Hf); wp_simpl
  end.

Ltac trace_norm Htr :=
  repeat match goal with
  | Ht : w_trace ?x = _ |- _ =>
      tryif constr_eq Ht Htr then fail
      else lazymatch type of Htr with context [w_trace x] => rewrite Ht in Htr end
  end;
  symmetry in Htr; rewrite <- ?app_assoc in Htr; apply app_inv_head in Htr;
  simpl in Htr; subst.

(** Membership of an event in such a trace, case by case. *)
Ltac not_staged H :=
  match goal with
  | Hf : Forall _ ?l |- _ =>
      match type of H with
      | _ ∈ l =>
          let Hx := fresh in
          pose proof (proj1 (Forall_forall _ _) Hf _ H) as Hx;
          simpl in Hx; contradiction
      end
  end.

Ltac in_events H :=
  repeat first
    [ apply elem_of_nil in H; contradiction
    | not_staged H
    | apply elem_of_cons in H as [H|H]; [try discriminate H|]
    | apply elem_of_app in H as [H|H]; [try not_staged H|] ].

Lemma exceeded_inv (a b : Z) v :
  bool_decide ((if a <=? b then Some "context deadline exceeded" else None)
               = Some "context deadline exceeded") = v ->
  if v then a <= b else b < a.
Proof.
  intros <-. destruct (Z.leb_spec a b); case_bool_decide; simpl; congruence || lia.
Qed.

Lemma overruns_set st c : overruns (set_c_state st c) -> overruns c.
Proof. auto. Qed.

(** A child that overruns its deadline was killed at the deadline. *)
Ltac overrun Hov :=
  apply overruns_set in Hov; simpl in *;
  match type of Hov with
  | overruns ?c =>
      let Hk := fresh "Hk" in
      pose proof (child_end_killed c Hov) as Hk; rewrite Hk in *; simpl in *
  end.

Ltac deadline_cases :=
  try match goal with
      | H : bool_decide _ = _ |- _ => apply exceeded_inv in H; simpl in H
      end.

(** ** The two pipelines *)

Ltac trace_now :=
  repeat match goal with
  | Ht : w_trace ?x = _ |- context [w_trace ?x] => rewrite Ht
  end;
  rewrite <- ?app_assoc; simpl; reflexivity.

Ltac clock_now :=
  repeat match goal with
  | Hc : w_clock ?x = _ |- context [w_clock ?x] => rewrite Hc
  end;
  repeat first [ rewrite total_duration_cons | rewrite total_duration_app
               | rewrite total_duration_nil ];
  cbn [fst snd]; lia.

Ltac event_here :=
  eexists;
  repeat first
    [ apply list_elem_of_here
    | apply list_elem_of_further
    | apply elem_of_app; right ].

Section Pipelines.
Variable E : env.

Lemma wp_handleJavaScriptExecution filePath w :
  wp (handleJavaScriptExecution E filePath)
     (fun r w' => exists evs, js_run filePath w r w' evs) w.
Proof.
  unfold handleJavaScriptExecution. wp_all.
  all: unfold js_run; wp_simpl; eexists.
  all: split; [trace_now|].
  all: split; [clock_now|].
  all: do 2 (split; [reflexivity|]).
  all: split; [intros p0 dc Hin; in_events Hin|].
  all: first
    [ left; split; [reflexivity|];
      split; [intros pid dw Hin; in_events Hin | simpl; discriminate]
    | right; eexists; split; [reflexivity|]; wp_simpl;
      do 4 (split; [reflexivity|]) ].
  all: split; [first [apply child_end_not_running | discriminate]|].
  all: split;
    [ intros pid dw Hin; in_events Hin; injection Hin as -> ->;
      (split; [reflexivity|]); deadline_cases
    | intros Hr; simpl in Hr; try discriminate Hr; (split; [reflexivity|event_here]) ].
  all: unfold ctx_deadline in *; simpl in *.
  all: split;
    [ split; intros; try reflexivity; try lia; unfold Errorf in *;
      cbv [String.append] in *; try congruence
    | intros Hov; overrun Hov; try congruence; unfold ctx_deadline in *; simpl in *;
      (split; [reflexivity|lia]) ].
Qed.

Lemma wp_executeTypescript fuel filePath w :
  wp (executeTypescript E fuel filePath)
     (fun r w' => exists evs, ts_run w r w' evs) w.
Proof.
  unfold executeTypescript. wp_all.
  all: unfold ts_run; wp_simpl; wp_frame; open_extends; eexists.
  all: split; [trace_now|].
  all: split; [clock_now|].
  all: first
    [ left; split; [reflexivity|];
      split; [intros pid dw Hin; in_events Hin | simpl; discriminate]
    | right; do 2 eexists; split; [reflexivity|]; wp_simpl;
      do 3 (split; [reflexivity|]) ].
  all: split; [event_here|].
  all: do 2 (split; [reflexivity|]).
  all: split; [first [apply child_end_not_running | discriminate]|].
  all: split;
    [ intros pid dw Hin; in_events Hin; injection Hin as -> ->;
      (split; [reflexivity|]); deadline_cases
    | intros Hr; simpl in Hr; try discriminate Hr ].
  all: try (intros Hov; overrun Hov; try congruence; unfold ctx_deadline in *;
            simpl in *; try (split; reflexivity); lia).
  all: do 2 (split; [reflexivity|]).
  all: repeat split; event_here.
Qed.

End Pipelines.

(** ** The handler *)

Ltac wp_pipeline :=
  lazymatch goal with
  | |- wp (handleJavaScriptExecution _ _) _ _ =>
      eapply wp_mono;
      [apply wp_handleJavaScriptExecution
      | intros [[?out ?errout] ?err] ?w2 [?evs2 ?Hrun]]
  | |- wp (handleTypeScriptExecution _ _ _) _ _ =>
      unfold handleTypeScriptExecution; eapply wp_mono;
      [apply wp_executeTypescript
      | intros [[?out ?errout] ?err] ?w2 [?evs2 ?Hrun]]
  end; wp_simpl.

Lemma isLanguageSupported_spec language supported :
  isLanguageSupported language supported = true <-> language ∈ supported.
Proof.
  induction supported as [|lang rest IH]; simpl.
  - split; [discriminate|]. intros H. now apply elem_of_nil in H.
  - rewrite elem_of_cons. case_bool_decide; subst.
    + split; auto.
    + rewrite IH. split; [auto|]. intros [->|H']; [congruence|assumption].
Qed.

Section Handler.
Variable E : env.

Lemma wp_codeExecHandler fuel r w :
  wp (codeExecHandler E fuel r)
     (fun resp w' => turned_down w resp w' \/ pipeline_ran E r w resp w') w.
Proof.
  unfold codeExecHandler.
  repeat (first [wp_step | wp_sys | wp_pipeline]).
  all: try (left; unfold turned_down; wp_simpl;
            split; [simpl; discriminate|]; do 3 (split; [reflexivity|]);
            first [apply extends_refl | extends_now]).
  all: try match goal with
           | H : bool_decide (_ = "javascript") = true |- _ =>
               apply bool_decide_eq_true in H
           | H : bool_decide (_ = "typescript") = true |- _ =>
               apply bool_decide_eq_true in H
           end.
  all: try (right; unfold pipeline_ran;
            exists c, u, d, d0, d1; do 3 eexists;
            split; [assumption|]; do 3 (split; [assumption|]);
            split; [first [left; split; [assumption|exact Hrun]
                          |right; split; [assumption|exact Hrun]]|];
            wp_simpl; cbn [fst snd]).
  all: try (split; reflexivity).
  all: try (do 2 eexists; split; [rewrite <- ?app_assoc; simpl; reflexivity|];
            split; [first [left; reflexivity | right; do 2 eexists; reflexivity]|];
            split; [clock_now|]; auto).
  apply negb_false_iff, isLanguageSupported_spec in Heqb0.
  apply bool_decide_eq_false in Heqb1, Heqb2.
  apply elem_of_cons in Heqb0 as [?|Heqb0]; [contradiction|].
  apply elem_of_cons in Heqb0 as [?|Heqb0]; [contradiction|].
  now apply elem_of_nil in Heqb0.
Qed.
End Handler.

(** ** Claims about the handler *)

Section Claims.
Variable E : env.

Lemma handler_inv fuel r w resp w' :
  codeExecHandler E fuel r w = Some (resp, w') ->
  turned_down w resp w' \/ pipeline_ran E r w resp w'.
Proof. intros H. exact (wp_elim _ _ _ _ _ (wp_codeExecHandler E fuel r w) H). Qed.

(** C5. A request whose language is not one of javascript and typescript
    is answered "Language not supported" (status 400), and the handler has
    then done nothing but print its log line: the file system, the working
    directory and the process table are as before, and no other call was
    made. *)
Theorem unsupported_language_rejected_without_side_effect
    fuel r w req :
  r_Method r = "POST" -> r_BodyErr r = None ->
  e_unmarshal E (r_Body r) = Some req ->
  Language req ∉ ["javascript"; "typescript"] ->
  exists w' s d,
    codeExecHandler E fuel r w
      = Some (http_Error (error_json "Language not supported") 400, w') /\
    w_fs w' = w_fs w /\ w_cwd w' = w_cwd w /\ w_children w' = w_children w /\
    w_trace w' = w_trace w ++ [(EvPrint s, d)].
Proof.
  intros Hm Hb Hu Hl.
  assert (isLanguageSupported (Language req) ["javascript"; "typescript"] = false) as Hs.
  { destruct (isLanguageSupported _ _) eqn:Hs; [|reflexivity].
    apply isLanguageSupported_spec in Hs. contradiction. }
  eexists _, _, _. unfold codeExecHandler.
  rewrite Hm, Hb, Hu. rewrite bool_decide_eq_true_2 by reflexivity. cbn [negb].
  unfold bind at 1. unfold fmt_Printf, bind at 1. unfold emit.
  unfold bind, ret. rewrite Hs. cbn [negb].
  split; [reflexivity|]. simpl. auto.
Qed.

Lemma staged_world_trace req u d0 d1 d2 w :
  w_trace (staged_world req u d0 d1 d2 w)
  = w_trace w ++
      [(EvPrint ("Language: " +:+ Language req +:+ ", Code: " +:+ Code req
                 +:+ String "010"%char ""), d0);
       (EvUUID, d1); (EvWriteFile (entry_file u (Language req)), d2)].
Proof. unfold staged_world. simpl. now rewrite <- !app_assoc. Qed.

Lemma staged_world_clock req u d0 d1 d2 w :
  w_clock (staged_world req u d0 d1 d2 w) = w_clock w + d0 + d1 + d2.
Proof. reflexivity. Qed.

(** The shape of a request that ran a pipeline: the prelude, the calls of
    the pipeline [evs2], then the removal of the entry file [post]. *)
Lemma ran_shape r w resp w' evs :
  pipeline_ran E r w resp w' -> w_trace w' = w_trace w ++ evs ->
  exists req u d0 d1 d2 res w2 evs2 post,
    e_unmarshal E (r_Body r) = Some req /\
    ((Language req = "javascript" /\
      js_run (entry_file u (Language req)) (staged_world req u d0 d1 d2 w)
             res w2 evs2) \/
     (Language req = "typescript" /\
      ts_run (staged_world req u d0 d1 d2 w) res w2 evs2)) /\
    evs = (EvPrint ("Language: " +:+ Language req +:+ ", Code: " +:+ Code req
                    +:+ String "010"%char ""), d0)
          :: (EvUUID, d1)
          :: (EvWriteFile (entry_file u (Language req)), d2) :: evs2 ++ post /\
    w_children w' = w_children w2 /\
    (forall pid d, (EvWait pid, d) ∉ post) /\
    (forall p d, (EvChdir p, d) ∉ post) /\
    match res.2 with
    | Some e =>
        resp = http_Error (error_json ("Execution error: " +:+ e)) 500 /\
        post = [] /\ w' = w2
    | None =>
        w_cwd w' = w_cwd w2 /\
        (exists d3, (EvRemove (entry_file u (Language req)), d3) ∈ post) /\
        resp = {| status := 200; content_type := "application/json";
                  body := success_body res.1.1 res.1.2
                            (total_duration
                               ((EvWriteFile (entry_file u (Language req)), d2)
                                :: evs2 ++ post)) |}
    end.
Proof.
  intros (req & u & d0 & d1 & d2 & res & w2 & evs2 & Hu & _ & _ & _ & Hrun & Hres) Htr.
  assert (w_trace w2 = w_trace (staged_world req u d0 d1 d2 w) ++ evs2 /\
          w_clock w2 = w_clock (staged_world req u d0 d1 d2 w) + total_duration evs2)
    as [Ht2 Hc2].
  { destruct Hrun as [[_ Hr]|[_ Hr]]; destruct Hr as (? & ? & _); auto. }
  rewrite staged_world_trace in Ht2. rewrite staged_world_clock in Hc2.
  exists req, u, d0, d1, d2, res, w2, evs2.
  destruct (res.2) as [e|] eqn:Hr2.
  - destruct Hres as [-> ->]. exists [].
    split; [assumption|]. split; [assumption|].
    rewrite Ht2, <- app_assoc in Htr. apply app_inv_head in Htr. simpl in Htr.
    rewrite app_nil_r. split; [congruence|]. split; [reflexivity|].
    split; [intros ? ? Hx; now apply elem_of_nil in Hx|].
    split; [intros ? ? Hx; now apply elem_of_nil in Hx|]. auto.
  - destruct Hres as (d3 & tail & Ht & Htail & Hc & Hcwd & Hch & ->).
    exists ((EvRemove (entry_file u (Language req)), d3) :: tail).
    split; [assumption|]. split; [assumption|].
    rewrite Ht, Ht2, <- !app_assoc in Htr. apply app_inv_head in Htr. simpl in Htr.
    split; [congruence|]. split; [assumption|].
    split; [|split].
    + intros pid d Hx. apply elem_of_cons in Hx as [Hx|Hx]; [discriminate|].
      destruct Htail as [->|(s & d4 & ->)]; in_events Hx.
    + intros p d Hx. apply elem_of_cons in Hx as [Hx|Hx]; [discriminate|].
      destruct Htail as [->|(s & d4 & ->)]; in_events Hx.
    + split; [assumption|]. split; [eexists; apply list_elem_of_here|].
      do 2 f_equal. rewrite Hc, Hc2.
      rewrite total_duration_cons, total_duration_app, total_duration_cons.
      simpl. lia.
Qed.



(** C6, as amended. For a request answered with status 200, the elapsed
    time reported is the total duration of every call from the write that
    stages the entry file to the removal of that file: staging, the whole
    pipeline (for typescript: creating the workspace, copying the template,
    the supervised process, removing the workspace) and the removal. *)
Theorem elapsed_spans_staging_to_removal
    fuel r w resp w' evs :
  codeExecHandler E fuel r w = Some (resp, w') ->
  w_trace w' = w_trace w ++ evs ->
  status resp = 200 ->
  exists req u out err s d0 d1 d2 rest,
    e_unmarshal E (r_Body r) = Some req /\
    evs = (EvPrint s, d0) :: (EvUUID, d1)
          :: (EvWriteFile (entry_file u (Language req)), d2) :: rest /\
    body resp = success_body out err
                  (total_duration
                     ((EvWriteFile (entry_file u (Language req)), d2) :: rest)) /\
    (exists pid d, (EvWait pid, d) ∈ rest) /\
    (exists d, (EvRemove (entry_file u (Language req)), d) ∈ rest) /\
    (Language req = "typescript" ->
       exists u',
         (exists d, (EvMkdir (Rel [u']), d) ∈ rest) /\
         (exists d, (EvLstat template_root, d) ∈ rest) /\
         (exists d, (EvRemoveAll (Abs ["mnt"; "persistent"; u']), d) ∈ rest)).
Proof.
  intros H Htr Hok. apply handler_inv in H as [Htd|Hran].
  { now destruct Htd as (Hne & _). }
  destruct (ran_shape _ _ _ _ _ Hran Htr)
    as (req & u & d0 & d1 & d2 & res & w2 & evs2 & post
        & Hu & Hrun & -> & Hch & Hnw & Hnc & Hres).
  destruct (res.2) as [e|] eqn:Hr2.
  { destruct Hres as (-> & _). simpl in Hok. discriminate. }
  destruct Hres as (_ & (d3 & Hrm) & ->).
  exists req, u, res.1.1, res.1.2. do 3 eexists. exists d2, (evs2 ++ post).
  split; [assumption|]. split; [reflexivity|]. split; [reflexivity|].
  assert (forall x, x ∈ evs2 -> x ∈ evs2 ++ post) as Hsub.
  { intros x Hx. apply elem_of_app. now left. }
  split; [|split].
  - destruct Hrun as [[_ Hjs]|[_ Hts]].
    + destruct Hjs as (_ & _ & _ & _ & _ & [(_ & _ & Hne)|(c & _ & _ & _ & _ & _ & _ & _ & Hs)]).
      { congruence. }
      destruct (Hs Hr2) as (_ & d & Hd). eauto.
    + destruct Hts as (_ & _ & [(_ & _ & Hne)|(c & u' & _ & _ & _ & _ & _ & _ & _ & _ & _ & Hs)]).
      { congruence. }
      destruct (Hs Hr2) as (_ & _ & _ & _ & (d & Hd) & _). eauto.
  - exists d3. apply elem_of_app. now right.
  - intros Hl. destruct Hrun as [[Hl' _]|[_ Hts]]; [congruence|].
    destruct Hts as (_ & _ & [(_ & _ & Hne)|(c & u' & _ & _ & _ & _ & _ & _ & _ & _ & _ & Hs)]).
    { congruence. }
    destruct (Hs Hr2) as (_ & _ & (da & Ha) & (db & Hb) & _ & (dc & Hc)).
    exists u'. eauto 10.
Qed.

(** C10. A JavaScript execution that gets to wait for its child runs it
    under a deadline of 60 seconds from its start; the error returned when
    that deadline has passed is "command timed out after 10 seconds", and
    only then; a child still running at the deadline is killed. The figure
    in the message is not the budget enforced. *)
Theorem javascript_timeout_says_10_enforces_60
    filePath w r w' evs pid d :
  handleJavaScriptExecution E filePath w = Some (r, w') ->
  w_trace w' = w_trace w ++ evs -> (EvWait pid, d) ∈ evs ->
  exists c,
    w_children w' !! pid = Some c /\
    ctx_timeout (c_ctx c) = 60 * 1000 /\
    ctx_deadline (c_ctx c) = w_clock w + 60 * 1000 /\
    (ctx_deadline (c_ctx c) <= w_clock w' <->
     r = ("", "", Some ("command timed out after " +:+ pretty 10 +:+ " seconds"))) /\
    (overruns c -> c_state c = Killed /\ ctx_deadline (c_ctx c) <= w_clock w') /\
    pretty 10 <> pretty (ctx_timeout (c_ctx c) `div` 1000).
Proof.
  intros H Htr Hin.
  destruct (wp_elim _ _ _ _ _ (wp_handleJavaScriptExecution E filePath w) H)
    as (evs' & Ht & _ & _ & _ & _ & Hcases).
  rewrite Ht in Htr. apply app_inv_head in Htr. subst evs'.
  destruct Hcases as [(_ & Hno & _)|(c & Hch & _ & _ & _ & Hctx & _ & Hwait & _)].
  { now apply Hno in Hin. }
  destruct (Hwait _ _ Hin) as (-> & Hiff & Hov).
  exists c. rewrite Hch, lookup_snoc. split; [reflexivity|].
  rewrite Hctx in *. unfold ctx_deadline in *. simpl in *.
  split; [reflexivity|]. split; [reflexivity|]. split; [exact Hiff|].
  split; [exact Hov|]. vm_compute. discriminate.
Qed.

End Claims.

(** ** copyFile *)

(** *** Total correctness *)

Lemma total_bind {A B} (m : M A) (k : A -> M B) :
  total m -> (forall a, total (k a)) -> total (bind m k).
Proof.
  intros Hm Hk w. destruct (Hm w) as (a & w1 & H1).
  destruct (Hk a w1) as (b & w2 & H2). exists b, w2.
  unfold bind. now rewrite H1.
Qed.

Lemma total_ret {A} (a : A) : total (ret a).
Proof. intros w. now exists a, w. Qed.

Ltac total_step :=
  lazymatch goal with
  | |- total (bind _ _) => apply total_bind; [|intros ?]
  | |- total (ret _) => apply total_ret
  | |- total get => intros ?w; eexists _, _; reflexivity
  | |- total (modify _) => intros ?w; eexists _, _; reflexivity
  | |- total (emit _ _) => intros ?w; eexists _, _; reflexivity
  | |- total (match ?x with _ => _ end) => destruct x
  end.

Lemma returns_bind {A B} (m : M A) (k : A -> M B) Q w :
  returns m (fun a w' => returns (k a) Q w') w -> returns (bind m k) Q w.
Proof.
  intros (a & w1 & Hm & b & w2 & Hk & HQ). exists b, w2.
  unfold bind. rewrite Hm. auto.
Qed.

Lemma returns_ret {A} (a : A) (Q : A -> world -> Prop) w : Q a w -> returns (ret a) Q w.
Proof. intros H. now exists a, w. Qed.

Lemma returns_get (Q : world -> world -> Prop) w : Q w w -> returns get Q w.
Proof. intros H. now exists w, w. Qed.

Lemma returns_modify f (Q : unit -> world -> Prop) w :
  Q tt (f w) -> returns (modify f) Q w.
Proof. intros H. now exists tt, (f w). Qed.

Lemma returns_wp {A} (m : M A) (P Q : A -> world -> Prop) w :
  returns m P w -> wp m Q w -> returns m (fun a w' => P a w' /\ Q a w') w.
Proof.
  intros (a & w' & Hm & HP) Hwp. exists a, w'. split; [assumption|].
  split; [assumption|]. eapply wp_elim; eauto.
Qed.

Lemma returns_mono {A} (m : M A) (Q Q' : A -> world -> Prop) w :
  returns m Q w -> (forall a w', Q a w' -> Q' a w') -> returns m Q' w.
Proof. intros (a & w' & Hm & HQ) H. exists a, w'. auto. Qed.

Lemma total_wp {A} (m : M A) (Q : A -> world -> Prop) w :
  total m -> wp m Q w -> returns m Q w.
Proof.
  intros Ht Hwp. destruct (Ht w) as (a & w' & Hm). exists a, w'.
  split; [assumption|]. eapply wp_elim; eauto.
Qed.

Lemma returns_bind_wp {A B} (m : M A) (k : A -> M B) (Q : B -> world -> Prop) w :
  total m -> wp m (fun a w' => returns (k a) Q w') w -> returns (bind m k) Q w.
Proof. intros Ht Hwp. apply returns_bind. now apply total_wp. Qed.

Lemma total_returns {A} (m : M A) w : total m -> returns m (fun _ _ => True) w.
Proof. intros Ht. destruct (Ht w) as (a & w' & Hm). now exists a, w'. Qed.

Ltac ret_pure :=
  lazymatch goal with
  | |- returns (bind _ _) _ _ => apply returns_bind
  | |- returns (ret _) _ _ => apply returns_ret
  | |- returns get _ _ => apply returns_get
  | |- returns (modify _) _ _ => apply returns_modify
  end; wp_simpl.

Section CopyFile.
Variable E : env.

(** What copyFile leaves in the file system. *)
Lemma wp_copyFile src dest w :
  wp (copyFile E src dest) (fun err w' =>
    w_cwd w' = w_cwd w /\
    (forall k, k <> resolve (w_cwd w) dest -> w_fs w' !! k = w_fs w !! k) /\
    (err = None ->
       exists data,
         w_fs w' !! resolve (w_cwd w) dest = Some (File data true) /\
         (exists b, fs_lookup (w_fs w') (resolve (w_cwd w) src) = Some (File data b)) /\
         (resolve (w_cwd w) src <> resolve (w_cwd w) dest ->
          exists b, fs_lookup (w_fs w) (resolve (w_cwd w) src) = Some (File data b)))) w.
Proof.
  unfold copyFile. wp_all.
  all: split; [reflexivity|].
  all: split; [intros k Hk; now rewrite ?lookup_insert_ne|].
  all: try discriminate.
  - intros _. rewrite lookup_insert_eq in Hdst. injection Hdst as <- <-.
    apply fs_lookup_File in Hsrc as [Hne Hsrc].
    exists data. rewrite lookup_insert_eq. split; [done|].
    destruct (decide (resolve (w_cwd w) dest = resolve (w_cwd w) src)) as [Heq|Hneq].
    + rewrite <- Heq in *. rewrite lookup_insert_eq in Hsrc. injection Hsrc as <- <-.
      split; [|congruence]. exists true. apply fs_lookup_File.
      now rewrite lookup_insert_eq.
    + rewrite lookup_insert_ne in Hsrc by done.
      split; [|intros _; exists b; now apply fs_lookup_File].
      exists b. apply fs_lookup_File. now rewrite !lookup_insert_ne.
  - exfalso. eapply Hno. apply lookup_insert_eq.
Qed.

Lemma copyFile_total src dest : total (copyFile E src dest).
Proof.
  unfold copyFile, os_Open, os_Create, io_Copy, file_Sync, file_Close.
  repeat total_step.
Qed.

End CopyFile.

(** *** When the operating system injects no failure *)

Section NoFault.
Variable E : env.
Hypothesis no_fault : forall n, e_fault E n = None.

Lemma returns_emit ev (Q : error -> world -> Prop) w :
  Q None (log_event ev (cost E w) w) -> returns (emit E ev) Q w.
Proof.
  intros H. exists None, (log_event ev (cost E w) w). split; [|assumption].
  unfold emit, fault. now rewrite no_fault.
Qed.

Ltac ret_step :=
  first [ ret_pure
        | lazymatch goal with
          | |- returns (emit _ _) _ _ => apply returns_emit
          end; wp_simpl ].

Lemma returns_os_Open name (Q : list string * error -> world -> Prop) w n :
  fs_lookup (w_fs w) (resolve (w_cwd w) name) = Some n ->
  Q (resolve (w_cwd w) name, None) (log_event (EvOpen name) (cost E w) w) ->
  returns (os_Open E name) Q w.
Proof. intros H HQ. unfold os_Open. repeat ret_step. now rewrite H; ret_step. Qed.

Lemma returns_os_Create name (Q : list string * error -> world -> Prop) w :
  fs_lookup (w_fs w) (resolve (w_cwd w) name) <> Some Dir ->
  is_dir (fs_lookup (w_fs w) (parent (resolve (w_cwd w) name))) = true ->
  Q (resolve (w_cwd w) name, None)
    (set_fs (<[resolve (w_cwd w) name := File "" false]> (w_fs w))
            (log_event (EvCreate name) (cost E w) w)) ->
  returns (os_Create E name) Q w.
Proof.
  intros Hnd Hp HQ. unfold os_Create. repeat ret_step. rewrite Hp.
  destruct (fs_lookup (w_fs w) (resolve (w_cwd w) name)) as [[|]|];
    try congruence; repeat ret_step; assumption.
Qed.

Lemma returns_io_Copy dst src (Q : Z * error -> world -> Prop) w data b :
  fs_lookup (w_fs w) src = Some (File data b) ->
  Q (Z.of_nat (String.length data), None)
    (set_fs (<[dst := File data false]> (w_fs w))
            (log_event (EvCopy dst src) (cost E w) w)) ->
  returns (io_Copy E dst src) Q w.
Proof. intros H HQ. unfold io_Copy. repeat ret_step. rewrite H. now repeat ret_step. Qed.

Lemma returns_file_Sync f (Q : error -> world -> Prop) w :
  (forall fs', Q None (set_fs fs' (log_event (EvSync f) (cost E w) w))) ->
  returns (file_Sync E f) Q w.
Proof.
  intros HQ. unfold file_Sync. repeat ret_step.
  destruct (w_fs w !! f) as [[|]|]; repeat ret_step; try apply HQ.
  all: specialize (HQ (w_fs w)); now destruct w.
Qed.

Lemma returns_file_Close f (Q : error -> world -> Prop) w :
  Q None (log_event (EvClose f) (cost E w) w) -> returns (file_Close E f) Q w.
Proof. intros HQ. unfold file_Close. now ret_step. Qed.

Lemma copyFile_nf src dest w data b :
  fs_lookup (w_fs w) (resolve (w_cwd w) src) = Some (File data b) ->
  fs_lookup (w_fs w) (resolve (w_cwd w) dest) <> Some Dir ->
  is_dir (fs_lookup (w_fs w) (parent (resolve (w_cwd w) dest))) = true ->
  returns (copyFile E src dest) (fun err _ => err = None) w.
Proof.
  intros Hsrc Hnd Hp. unfold copyFile.
  ret_step. eapply returns_os_Open; [eassumption|]. wp_simpl.
  ret_step. ret_step. apply returns_os_Create; [assumption..|]. wp_simpl.
  ret_step. ret_step.
  assert (exists data' b',
    fs_lookup (<[resolve (w_cwd w) dest := File "" false]> (w_fs w))
              (resolve (w_cwd w) src) = Some (File data' b')) as (data' & b' & Hsrc').
  { apply fs_lookup_File in Hsrc as [Hne Hsrc].
    destruct (decide (resolve (w_cwd w) dest = resolve (w_cwd w) src)) as [Heq|Hneq].
    - exists "", false. apply fs_lookup_File. rewrite Heq. now rewrite lookup_insert_eq.
    - exists data, b. apply fs_lookup_File. now rewrite lookup_insert_ne. }
  eapply returns_io_Copy; [eassumption|]. wp_simpl.
  apply returns_file_Sync. intros fs'. wp_simpl.
  ret_step. apply returns_file_Close. ret_step.
  ret_step. apply returns_file_Close. ret_step. reflexivity.
Qed.

End NoFault.

(** C7, as amended. For a source and a destination that name different
    files, copyFile always returns. When it returns nil, the destination
    holds exactly the bytes the source held at the call and has been synced,
    and the source is as it was; an error of opening the source, of creating
    the destination or of copying is the error it returns; and with a
    readable source file, a creatable destination and an operating system
    that injects no failure it returns nil. *)
Theorem copyFile_synced_copy_of_another_file (E : env) src dest w :
  resolve (w_cwd w) src <> resolve (w_cwd w) dest ->
  exists err w',
    copyFile E src dest w = Some (err, w') /\
    (err = None ->
       exists data b,
         fs_lookup (w_fs w) (resolve (w_cwd w) src) = Some (File data b) /\
         w_fs w' !! resolve (w_cwd w) dest = Some (File data true) /\
         w_fs w' !! resolve (w_cwd w) src = w_fs w !! resolve (w_cwd w) src) /\
    (forall e f w1, os_Open E src w = Some ((f, Some e), w1) -> err = Some e) /\
    (forall e sf w1 df w2,
       os_Open E src w = Some ((sf, None), w1) ->
       os_Create E dest w1 = Some ((df, Some e), w2) -> err = Some e) /\
    (forall e sf w1 df w2 n w3,
       os_Open E src w = Some ((sf, None), w1) ->
       os_Create E dest w1 = Some ((df, None), w2) ->
       io_Copy E df sf w2 = Some ((n, Some e), w3) -> err = Some e) /\
    ((forall n, e_fault E n = None) ->
     (exists data b,
        fs_lookup (w_fs w) (resolve (w_cwd w) src) = Some (File data b)) ->
     fs_lookup (w_fs w) (resolve (w_cwd w) dest) <> Some Dir ->
     is_dir (fs_lookup (w_fs w) (parent (resolve (w_cwd w) dest))) = true ->
     err = None).
Proof.
  intros Hapart.
  destruct (copyFile_total E src dest w) as (err & w' & H).
  exists err, w'. split; [assumption|].
  split; [|split; [|split; [|split]]].
  - intros Hnil.
    destruct (wp_elim _ _ _ _ _ (wp_copyFile E src dest w) H)
      as (_ & Hframe & Hok).
    destruct (Hok Hnil) as (data & Hdst & _ & Hsrc).
    destruct (Hsrc Hapart) as (b & Hb).
    exists data, b. split; [exact Hb|]. split; [exact Hdst|].
    apply Hframe. exact Hapart.
  - intros e f w1 Ho. unfold copyFile, bind in H. rewrite Ho in H.
    unfold ret in H. congruence.
  - intros e sf w1 df w2 Ho Hc. unfold copyFile in H. unfold bind at 1 in H.
    rewrite Ho in H. unfold bind at 1 in H. unfold bind at 1 in H.
    rewrite Hc in H. unfold ret, bind, file_Close, emit in H. congruence.
  - intros e sf w1 df w2 n w3 Ho Hc Hcp. unfold copyFile in H. unfold bind at 1 in H.
    rewrite Ho in H. unfold bind at 1 in H. unfold bind at 1 in H.
    rewrite Hc in H. unfold bind at 1 in H. unfold bind at 1 in H.
    rewrite Hcp in H. unfold ret, bind, file_Close, emit in H. congruence.
  - intros Hnf (data & b & Hsrc) Hnd Hp.
    destruct (copyFile_nf E Hnf src dest w data b Hsrc Hnd Hp) as (err' & w'' & H' & ->).
    congruence.
Qed.

(** The package file of the template, copied into the scratch root: the
    copy holds its bytes, synced, and the template keeps its own. *)
Lemma package_file_copied_into_the_scratch_root :
  resolve (w_cwd boot) (Abs ["tmp"; "dummy-pkg-ts"; "package.json"])
    <> resolve (w_cwd boot) (Abs ["mnt"; "persistent"; "package.json"]) /\
  exists w',
    copyFile (calm "typescript" (exits_with 0 "" ""))
      (Abs ["tmp"; "dummy-pkg-ts"; "package.json"])
      (Abs ["mnt"; "persistent"; "package.json"]) boot = Some (None, w') /\
    w_fs boot !! ["tmp"; "dummy-pkg-ts"; "package.json"] = Some (File "{}" true) /\
    w_fs boot !! ["mnt"; "persistent"; "package.json"] = None /\
    w_fs w' !! ["mnt"; "persistent"; "package.json"] = Some (File "{}" true) /\
    w_fs w' !! ["tmp"; "dummy-pkg-ts"; "package.json"] = Some (File "{}" true).
Proof.
  assert (Hapart :
    resolve (w_cwd boot) (Abs ["tmp"; "dummy-pkg-ts"; "package.json"])
      <> resolve (w_cwd boot) (Abs ["mnt"; "persistent"; "package.json"]))
    by (vm_compute; discriminate).
  split; [exact Hapart|].
  destruct (copyFile_synced_copy_of_another_file
              (calm "typescript" (exits_with 0 "" ""))
              (Abs ["tmp"; "dummy-pkg-ts"; "package.json"])
              (Abs ["mnt"; "persistent"; "package.json"]) boot Hapart)
    as (err & w' & Hrun & Hok & _ & _ & _ & Hnil).
  assert (err = None) as ->.
  { apply Hnil.
    - intros n. reflexivity.
    - exists "{}", true. vm_compute. reflexivity.
    - vm_compute. discriminate.
    - vm_compute. reflexivity. }
  destruct (Hok eq_refl) as (data & b & Hsrc & Hdst & Hsame).
  assert (Hboot : w_fs boot !! ["tmp"; "dummy-pkg-ts"; "package.json"]
                  = Some (File "{}" true)) by (vm_compute; reflexivity).
  assert (data = "{}") as ->.
  { vm_compute in Hsrc. congruence. }
  exists w'. split; [exact Hrun|]. split; [exact Hboot|].
  split; [vm_compute; reflexivity|]. split; [exact Hdst|].
  rewrite <- Hboot. exact Hsame.
Defined.

(** C7 as stated fails where source and destination are the same file: the
    source is a readable file, the destination can be created and no call
    fails, copyFile returns nil, and the file that held the two bytes of the
    source holds none: os.Create has truncated it before io.Copy reads it. *)
Lemma copyFile_onto_itself_returns_nil_with_the_bytes_lost :
  exists w',
    copyFile (calm "typescript" (exits_with 0 "" ""))
      (Abs ["tmp"; "dummy-pkg-ts"; "package.json"])
      (Abs ["tmp"; "dummy-pkg-ts"; "package.json"]) boot = Some (None, w') /\
    fs_lookup (w_fs boot) ["tmp"; "dummy-pkg-ts"; "package.json"]
      = Some (File "{}" true) /\
    is_dir (fs_lookup (w_fs boot) ["tmp"; "dummy-pkg-ts"]) = true /\
    w_fs w' !! ["tmp"; "dummy-pkg-ts"; "package.json"] = Some (File "" true).
Proof.
  eexists. split; [vm_compute; reflexivity|].
  repeat split; vm_compute; reflexivity.
Qed.

(** ** The success envelope and JSON *)











(** ** copyDirectory *)

(** *** Paths *)

Lemma strip_prefix_Some base target r :
  strip_prefix base target = Some r <-> target = base ++ r.
Proof.
  revert target. induction base as [|b base IH]; intros target; simpl.
  - split; congruence.
  - destruct target as [|t target]; [split; discriminate|].
    case_decide; subst.
    + rewrite IH. split; congruence.
    + split; [discriminate|]. intros Heq. injection Heq. congruence.
Qed.

Lemma strip_prefix_app base r : strip_prefix base (base ++ r) = Some r.
Proof. now apply strip_prefix_Some. Qed.

Lemma child_name_Some p k n : child_name p k = Some n <-> k = p ++ [n].
Proof.
  unfold child_name. destruct (strip_prefix p k) as [r|] eqn:H.
  - apply strip_prefix_Some in H. subst k.
    destruct r as [|x [|y r]]; split; intros H'; try discriminate;
      try apply app_inv_head in H'; congruence.
  - split; [discriminate|]. intros ->. rewrite strip_prefix_app in H. discriminate.
Qed.

Lemma sub_nil p : sub p [] = p.
Proof. destruct p; unfold sub; simpl; now rewrite app_nil_r. Qed.

Lemma sub_snoc p rel n : filepath_Join (sub p rel) (Rel [n]) = sub p (rel ++ [n]).
Proof. destruct p; unfold sub; simpl; now rewrite app_assoc. Qed.

Lemma resolve_sub cwd p rel : resolve cwd (sub p rel) = resolve cwd p ++ rel.
Proof. destruct p; unfold sub; simpl; [reflexivity|]. now rewrite app_assoc. Qed.

Lemma filepath_Rel_sub p rel : filepath_Rel p (sub p rel) = (Some (Rel rel), None).
Proof. destruct p; unfold sub; simpl; now rewrite strip_prefix_app. Qed.

(** *** Directory listings *)

Lemma elem_of_dir_names fs p n : n ∈ dir_names fs p <-> is_Some (fs !! (p ++ [n])).
Proof.
  unfold dir_names. rewrite merge_sort_Permutation, list_elem_of_omap. split.
  - intros ([k v] & Hin & Hn). apply elem_of_map_to_list in Hin.
    simpl in Hn. apply child_name_Some in Hn. subst k. eauto.
  - intros [v Hv]. exists (p ++ [n], v). split.
    + now apply elem_of_map_to_list.
    + simpl. now apply child_name_Some.
Qed.

(** *** MkdirAll *)

Lemma mkdir_all_spec rest : forall fs pre fs',
  mkdir_all fs pre rest = Some fs' ->
  (forall k, fs' !! k = fs !! k \/
             (k `prefix_of` (pre ++ rest) /\ fs !! k = None /\ fs' !! k = Some Dir)) /\
  (rest <> [] -> fs' !! (pre ++ rest) = Some Dir).
Proof.
  induction rest as [|n rest IH]; intros fs pre fs' H; simpl in H.
  - injection H as <-. split; [auto|congruence].
  - replace (pre ++ n :: rest) with ((pre ++ [n]) ++ rest) by now rewrite <- app_assoc.
    destruct (fs !! (pre ++ [n])) as [[|]|] eqn:Hp; [discriminate| |].
    + destruct (IH _ _ _ H) as [Hk Ht]. split; [assumption|]. intros _.
      destruct rest as [|m rest]; [|apply Ht; discriminate].
      simpl in H. injection H as <-. now rewrite app_nil_r.
    + destruct (IH _ _ _ H) as [Hk Ht]. split.
      * intros k. destruct (decide (k = pre ++ [n])) as [->|Hne].
        -- right. split; [apply prefix_app_r; reflexivity|]. split; [assumption|].
           destruct (Hk (pre ++ [n])) as [He|(_ & He & _)];
             rewrite lookup_insert_eq in He; congruence.
        -- destruct (Hk k) as [He|(Hpre & He & Hd)];
             rewrite lookup_insert_ne in He by congruence; auto.
      * intros _. destruct rest as [|m rest]; [|apply Ht; discriminate].
        simpl in H. injection H as <-. rewrite app_nil_r. apply lookup_insert_eq.
Qed.

(** *** Frames *)

Lemma changed_within_refl q fs : changed_within q fs fs.
Proof. intros k. now left. Qed.

Lemma changed_within_trans q fs1 fs2 fs3 :
  changed_within q fs1 fs2 -> changed_within q fs2 fs3 -> changed_within q fs1 fs3.
Proof.
  intros H12 H23 k.
  destruct (H23 k) as [He|[Hu|(Hp & Hn & Hd)]]; [|now right; left|].
  - destruct (H12 k) as [He'|[Hu|(Hp & Hn & Hd)]].
    + left. congruence.
    + right. now left.
    + right. right. repeat split; congruence.
  - destruct (H12 k) as [He'|[Hu|(Hp' & Hn' & Hd')]].
    + right. right. repeat split; congruence.
    + right. now left.
    + congruence.
Qed.

Lemma changed_within_child q n fs fs' :
  changed_within (q ++ [n]) fs fs' -> changed_within q fs fs'.
Proof.
  intros H k. destruct (H k) as [He|[Hu|(Hp & Hn & Hd)]]; [now left| |].
  - right. left. eapply prefix_app_l. eassumption.
  - destruct Hp as [t Ht]. destruct t as [|x t] using rev_ind.
    + rewrite app_nil_r in Ht. subst k. right. left. now apply prefix_app_r.
    + rewrite app_assoc in Ht. apply app_inj_tail in Ht as [-> _].
      right. right. split; [now apply prefix_app_r|]. auto.
Qed.

Lemma changed_within_present q fs fs' k v :
  changed_within q fs fs' -> fs !! k = Some v -> ~ q `prefix_of` k ->
  fs' !! k = Some v.
Proof.
  intros H Hk Hn. destruct (H k) as [He|[Hu|(_ & Hnone & _)]]; congruence.
Qed.

Lemma NoDup_omap_elem {A B} (f : A -> option B) (l : list A) :
  (forall x y b, x ∈ l -> y ∈ l -> f x = Some b -> f y = Some b -> x = y) ->
  NoDup l -> NoDup (omap f l).
Proof.
  intros Hinj Hnd. induction Hnd as [|x l Hx Hnd IH]; simpl; [constructor|].
  assert (NoDup (omap f l)) as Hl.
  { apply IH. intros y z b Hy Hz. apply Hinj; now apply list_elem_of_further. }
  destruct (f x) as [b|] eqn:Hfx; [|assumption].
  constructor; [|assumption].
  rewrite list_elem_of_omap. intros (y & Hy & Hfy).
  assert (x = y) as <-.
  { eapply Hinj; eauto using list_elem_of_here, list_elem_of_further. }
  contradiction.
Qed.

Lemma NoDup_dir_names fs p : NoDup (dir_names fs p).
Proof.
  unfold dir_names. rewrite merge_sort_Permutation.
  apply NoDup_omap_elem; [|apply NoDup_map_to_list].
  intros [k1 v1] [k2 v2] b H1 H2 Hb1 Hb2. simpl in *.
  apply child_name_Some in Hb1, Hb2. subst.
  apply elem_of_map_to_list in H1, H2. congruence.
Qed.

Lemma prefix_snoc_inv (k l : list string) x :
  k `prefix_of` l ++ [x] -> k = l ++ [x] \/ k `prefix_of` l.
Proof.
  intros [t Ht]. destruct t as [|y t _] using rev_ind.
  - left. now rewrite app_nil_r in Ht.
  - right. rewrite app_assoc in Ht. apply app_inj_tail in Ht as [-> _].
    now apply prefix_app_r.
Qed.

Lemma prefix_snoc_same (l k : list string) x y :
  (l ++ [x]) `prefix_of` k -> (l ++ [y]) `prefix_of` k -> x = y.
Proof.
  intros [t1 ->] [t2 H2]. rewrite <- !app_assoc in H2.
  apply app_inv_head in H2. simpl in H2. congruence.
Qed.

Lemma mkdir_all_ok rest : forall fs pre,
  (forall k, k `prefix_of` pre ++ rest -> fs !! k = None \/ fs !! k = Some Dir) ->
  is_Some (mkdir_all fs pre rest).
Proof.
  induction rest as [|n rest IH]; intros fs pre H; simpl; [eauto|].
  assert (pre ++ n :: rest = (pre ++ [n]) ++ rest) as Heq by now rewrite <- app_assoc.
  rewrite Heq in H.
  destruct (fs !! (pre ++ [n])) as [[|]|] eqn:Hp.
  - destruct (H (pre ++ [n])) as [?|?]; [now apply prefix_app_r|congruence..].
  - now apply IH.
  - apply IH. intros k Hk. destruct (decide (k = pre ++ [n])) as [->|Hne].
    + right. apply lookup_insert_eq.
    + rewrite lookup_insert_ne by congruence. now apply H.
Qed.

Section Mirror.
Variable E : env.
Variable fs0 : gmap (list string) node.
Variables cwd0 s q : list string.
Hypothesis s_q_apart : apart s q.

Lemma s_not_above rel : ~ s `prefix_of` (q ++ rel).
Proof.
  intros H. destruct s_q_apart as [H1 H2].
  destruct (prefix_weak_total s q (q ++ rel) H) as [?|?]; auto.
  now apply prefix_app_r.
Qed.

Lemma s_not_below rel : ~ (q ++ rel) `prefix_of` s.
Proof.
  intros H. destruct s_q_apart as [H1 H2]. apply H2. eapply prefix_app_l. eassumption.
Qed.

Lemma s_nonempty : s <> [].
Proof. intros ->. destruct s_q_apart as [H _]. apply H, prefix_nil. Qed.

Lemma q_nonempty : q <> [].
Proof. intros ->. destruct s_q_apart as [_ H]. apply H, prefix_nil. Qed.

Lemma src_kept_changed rel fs fs' :
  changed_within (q ++ rel) fs fs' -> src_kept fs0 s fs -> src_kept fs0 s fs'.
Proof.
  intros Hc Hk r. rewrite <- Hk. destruct (Hc (s ++ r)) as [He|[Hu|(Hp & _)]]; [assumption| |].
  - exfalso. destruct (prefix_weak_total s (q ++ rel) (s ++ r)) as [?|?];
      [now apply prefix_app_r|assumption|now apply (s_not_above rel)|now apply (s_not_below rel)].
  - exfalso. apply (s_not_above rel). etransitivity; [|exact Hp]. now apply prefix_app_r.
Qed.

Variables src dst : fpath.
Hypothesis src_at : resolve cwd0 src = s.
Hypothesis dst_at : resolve cwd0 dst = q.

Lemma resolve_src rel : resolve cwd0 (sub src rel) = s ++ rel.
Proof. now rewrite resolve_sub, src_at. Qed.

Lemma resolve_dst rel : resolve cwd0 (filepath_Join dst (Rel rel)) = q ++ rel.
Proof. fold (sub dst rel). now rewrite resolve_sub, dst_at. Qed.

(** The callback on a file of the source. *)
Lemma wp_func_file rel info w data b :
  w_cwd w = cwd0 -> src_kept fs0 s (w_fs w) ->
  fs0 !! (s ++ rel) = Some (File data b) -> IsDir info = false ->
  wp (copyDirectory_func E src dst (sub src rel) (Some info) None)
     (walk_post fs0 cwd0 s q rel w) w.
Proof.
  intros Hcwd Hkept Hent Hinfo. unfold copyDirectory_func.
  rewrite filepath_Rel_sub. simpl. rewrite Hinfo.
  eapply wp_mono; [apply wp_copyFile|].
  intros err w' (Hcwd' & Hframe & Hok). rewrite Hcwd in *.
  rewrite resolve_src, resolve_dst in *.
  split; [assumption|]. split.
  - intros k. destruct (decide (k = q ++ rel)) as [->|Hne]; [now right; left|].
    left. now apply Hframe.
  - intros -> r n Hreach Hn.
    destruct r as [|x r].
    + rewrite app_nil_r in *. rewrite Hent in Hn. injection Hn as <-.
      destruct (Hok eq_refl) as (data' & Hd & _ & Hsrc).
      destruct Hsrc as [b' Hsrc].
      { intros Heq. apply (s_not_above rel). rewrite <- Heq. now apply prefix_app_r. }
      apply fs_lookup_File in Hsrc as [_ Hsrc].
      specialize (Hkept rel). rewrite Hkept, Hent in Hsrc. injection Hsrc as <- <-.
      exact Hd.
    + specialize (Hreach [] (x :: r) eq_refl). rewrite app_nil_r in Hreach.
      rewrite Hent in Hreach. discriminate Hreach. discriminate.
Qed.

(** The callback on a directory of the source. *)
Lemma wp_func_dir rel info w :
  w_cwd w = cwd0 -> IsDir info = true ->
  wp (copyDirectory_func E src dst (sub src rel) (Some info) None)
     (fun err w' =>
        w_cwd w' = cwd0 /\
        changed_within (q ++ rel) (w_fs w) (w_fs w') /\
        (err = None -> w_fs w' !! (q ++ rel) = Some Dir)) w.
Proof.
  intros Hcwd Hinfo. unfold copyDirectory_func.
  rewrite filepath_Rel_sub. simpl. rewrite Hinfo.
  wp_sys.
  - split; [assumption|]. split; [apply changed_within_refl|discriminate].
  - rewrite Hcwd, resolve_dst in Hmk. apply mkdir_all_spec in Hmk as [Hk Ht].
    simpl in Hk, Ht. split; [assumption|]. split.
    + intros k. destruct (Hk k) as [?|?]; auto.
    + intros _. apply Ht. intros Heq. apply app_eq_nil in Heq as [Heq _].
      now apply q_nonempty.
Qed.

Lemma reachable_child rel n r :
  reachable fs0 (s ++ rel) (n :: r) -> reachable fs0 (s ++ rel ++ [n]) r.
Proof.
  intros H r1 r2 -> Hne. specialize (H (n :: r1) r2 eq_refl Hne).
  rewrite <- !app_assoc in *. exact H.
Qed.

(** The loop over the names of one directory, given the walk of each
    entry below it. *)
Lemma wp_walk_names_mirror rec rel :
  (forall n info w,
     w_cwd w = cwd0 -> src_kept fs0 s (w_fs w) ->
     (exists e, fs0 !! (s ++ rel ++ [n]) = Some e /\ IsDir info = is_dir (Some e)) ->
     wp (rec (sub src (rel ++ [n])) info)
        (walk_post fs0 cwd0 s q (rel ++ [n]) w) w) ->
  forall names w,
    w_cwd w = cwd0 -> src_kept fs0 s (w_fs w) ->
    (forall n, n ∈ names -> is_Some (fs0 !! (s ++ rel ++ [n]))) ->
    wp (walk_names E rec (copyDirectory_func E src dst) (sub src rel) names)
       (fun err w' =>
          w_cwd w' = cwd0 /\
          changed_within (q ++ rel) (w_fs w) (w_fs w') /\
          (forall k v, w_fs w !! k = Some v ->
             (forall n, n ∈ names -> ~ (q ++ rel ++ [n]) `prefix_of` k) ->
             w_fs w' !! k = Some v) /\
          (err = None ->
             forall n, n ∈ names -> mirror_sub fs0 s q (rel ++ [n]) (w_fs w'))) w.
Proof.
  intros Hrec names. induction names as [|n names IH]; intros w Hcwd Hkept Hnames; simpl.
  { apply wp_ret. split; [assumption|]. split; [apply changed_within_refl|].
    split; [auto|]. intros _ n Hn. now apply elem_of_nil in Hn. }
  rewrite sub_snoc. wp_step. wp_sys.
  - (* lstat fails *)
    wp_step. unfold copyDirectory_func at 1. wp_step. wp_step.
    split; [assumption|]. split; [apply changed_within_refl|].
    split; [auto|discriminate].
  - (* the entry is walked *)
    rewrite Hcwd, resolve_src in Hstat.
    assert (s ++ rel ++ [n] <> []) as Hne.
    { intros Heq. apply app_eq_nil in Heq as [Heq _]. now apply s_nonempty. }
    rewrite fs_lookup_ne in Hstat by assumption.
    specialize (Hkept (rel ++ [n])) as Hent. rewrite Hstat in Hent. symmetry in Hent.
    wp_step. eapply wp_mono.
    { apply Hrec; [assumption..|]. exists n0. auto. }
    intros err w1 (Hcwd1 & Hch1 & Hm1). wp_simpl.
    assert (changed_within (q ++ rel) (w_fs w) (w_fs w1)) as Hch1'.
    { apply (changed_within_child _ n). now rewrite <- app_assoc. }
    destruct err as [e|].
    { apply wp_ret. split; [assumption|]. split; [assumption|].
      split; [|discriminate].
      intros k v Hk Hout. apply (changed_within_present _ _ _ _ _ Hch1 Hk).
      apply Hout, list_elem_of_here. }
    eapply wp_mono.
    { apply IH; [assumption| |].
      - eapply (src_kept_changed (rel ++ [n])); eassumption.
      - intros n' Hn'. apply Hnames. now apply list_elem_of_further. }
    intros err w2 (Hcwd2 & Hch2 & Hpres2 & Hm2). simpl.
    split; [assumption|]. split; [eapply changed_within_trans; eassumption|].
    split.
    + intros k v Hk Hout. apply Hpres2.
      * apply (changed_within_present _ _ _ _ _ Hch1 Hk). apply Hout, list_elem_of_here.
      * intros n' Hn'. apply Hout. now apply list_elem_of_further.
    + intros -> n' Hn'.
      destruct (decide (n' ∈ names)) as [Hin|Hnin]; [now apply Hm2|].
      apply elem_of_cons in Hn' as [->|?]; [|contradiction].
      intros r e Hreach He. specialize (Hm1 eq_refl r e Hreach He).
      assert (exists v, w_fs w1 !! (q ++ (rel ++ [n]) ++ r) = Some v /\
                        mirrored e (Some v)) as (v & Hv & Hmv).
      { destruct e; simpl in *; eauto. }
      assert (w_fs w2 !! (q ++ (rel ++ [n]) ++ r) = Some v) as Hv2.
      { apply Hpres2; [assumption|]. intros n' Hn' Hp.
        assert (n' <> n) as Hneq by (intros ->; contradiction).
        apply Hneq. destruct Hp as [t Ht].
        rewrite <- !app_assoc in Ht. do 2 apply app_inv_head in Ht.
        simpl in Ht. congruence. }
      destruct e; simpl in *; congruence.
Qed.

(** The walk of one entry of the source. *)
Lemma wp_walk_mirror fuel : forall rel info w,
  w_cwd w = cwd0 -> src_kept fs0 s (w_fs w) ->
  (exists e, fs0 !! (s ++ rel) = Some e /\ IsDir info = is_dir (Some e)) ->
  wp (walk E fuel (copyDirectory_func E src dst) (sub src rel) info)
     (walk_post fs0 cwd0 s q rel w) w.
Proof.
  induction fuel as [|fuel IH]; intros rel info w Hcwd Hkept (e & Hent & Hinfo).
  { exact I. }
  cbn [walk]. destruct (IsDir info) eqn:Hd; cbn [negb].
  2:{ destruct e as [data b|]; [|discriminate].
      eapply wp_func_file; eauto. }
  destruct e as [data b|]; [discriminate|].
  wp_step. wp_sys.
  - (* the directory cannot be read *)
    wp_step. unfold copyDirectory_func at 1. wp_step. wp_step.
    split; [assumption|]. split; [apply changed_within_refl|discriminate].
  - rewrite Hcwd, resolve_src in *.
    wp_step. eapply wp_mono; [apply wp_func_dir; assumption|].
    intros err1 w1 (Hcwd1 & Hch1 & Hdir1). wp_simpl.
    destruct err1 as [e1|].
    { apply wp_ret. split; [assumption|]. split; [assumption|discriminate]. }
    assert (src_kept fs0 s (w_fs w1)) as Hkept1
      by (eapply src_kept_changed; eassumption).
    eapply wp_mono.
    { apply (wp_walk_names_mirror (walk E fuel (copyDirectory_func E src dst)) rel);
        [|assumption|assumption|].
      - intros n info' w' Hc Hk He. apply IH; assumption.
      - intros n Hn. apply elem_of_dir_names in Hn.
        specialize (Hkept (rel ++ [n])). rewrite <- app_assoc in Hn.
        now rewrite Hkept in Hn. }
    intros err w2 (Hcwd2 & Hch2 & Hpres2 & Hm2). simpl.
    split; [assumption|]. split; [eapply changed_within_trans; eassumption|].
    intros -> r n Hreach Hn.
    destruct r as [|x r].
    + rewrite app_nil_r in *. rewrite Hent in Hn. injection Hn as <-. simpl.
      apply Hpres2; [now apply Hdir1|].
      intros n' _ Hp. rewrite app_assoc in Hp. now apply prefix_snoc_not in Hp.
    + assert (is_Some (fs0 !! (s ++ rel ++ [x]))) as Hx.
      { destruct r as [|y r].
        - eauto.
        - specialize (Hreach [x] (y :: r) eq_refl). rewrite <- app_assoc in Hreach.
          rewrite Hreach; [eauto|discriminate]. }
      assert (x ∈ dir_names (w_fs w) (s ++ rel)) as Hin.
      { apply elem_of_dir_names. rewrite <- app_assoc.
        specialize (Hkept (rel ++ [x])). now rewrite Hkept. }
      specialize (Hm2 eq_refl x Hin r n).
      rewrite <- !app_assoc in Hm2. simpl in Hm2. apply Hm2; [|assumption].
      exact (reachable_child rel x r Hreach).
Qed.

(** copyDirectory, started on the file system [fs0]. *)
Lemma wp_copyDirectory_mirror fuel w :
  w_cwd w = cwd0 -> w_fs w = fs0 ->
  wp (copyDirectory E fuel src dst) (walk_post fs0 cwd0 s q [] w) w.
Proof.
  intros Hcwd Hfs. unfold copyDirectory, filepath_Walk. wp_step. wp_sys.
  - unfold copyDirectory_func. wp_step.
    split; [assumption|]. split; [apply changed_within_refl|discriminate].
  - rewrite Hcwd, src_at, Hfs in Hstat.
    rewrite fs_lookup_ne in Hstat by apply s_nonempty.
    pose proof (wp_walk_mirror fuel [] {| IsDir := is_dir (Some n) |}
                  (log_event (EvLstat src) d w)) as Hw.
    rewrite sub_nil, app_nil_r in Hw. apply Hw; [assumption| |eauto].
    intros r. simpl. now rewrite Hfs.
Qed.

(** *** The walk returns *)

Lemma total_os_Lstat name : total (os_Lstat E name).
Proof. unfold os_Lstat. repeat total_step. Qed.

Lemma total_readDirNames name : total (readDirNames E name).
Proof. unfold readDirNames. repeat total_step. Qed.

Lemma total_os_MkdirAll name : total (os_MkdirAll E name).
Proof. unfold os_MkdirAll. repeat total_step. Qed.

Lemma total_copyDirectory_func path info err :
  total (copyDirectory_func E src dst path info err).
Proof.
  unfold copyDirectory_func. repeat total_step;
    first [apply total_os_MkdirAll | apply copyFile_total].
Qed.

Lemma returns_walk_names rec rel :
  (forall n info w,
     w_cwd w = cwd0 -> src_kept fs0 s (w_fs w) ->
     (exists e, fs0 !! (s ++ rel ++ [n]) = Some e /\ IsDir info = is_dir (Some e)) ->
     returns (rec (sub src (rel ++ [n])) info)
             (walk_post fs0 cwd0 s q (rel ++ [n]) w) w) ->
  forall names w,
    w_cwd w = cwd0 -> src_kept fs0 s (w_fs w) ->
    returns (walk_names E rec (copyDirectory_func E src dst) (sub src rel) names)
            (fun _ _ => True) w.
Proof.
  intros Hrec names. induction names as [|n names IH]; intros w Hcwd Hkept;
    cbn [walk_names].
  { now apply returns_ret. }
  rewrite sub_snoc. apply returns_bind_wp; [apply total_os_Lstat|]. wp_sys.
  - unfold copyDirectory_func at 1. repeat ret_pure. exact I.
  - rewrite Hcwd, resolve_src in Hstat.
    assert (s ++ rel ++ [n] <> []) as Hne.
    { intros Heq. apply app_eq_nil in Heq as [Heq _]. now apply s_nonempty. }
    rewrite fs_lookup_ne in Hstat by assumption.
    specialize (Hkept (rel ++ [n])) as Hent. rewrite Hstat in Hent. symmetry in Hent.
    apply returns_bind. eapply returns_mono.
    { apply Hrec; [assumption..|]. exists n0. auto. }
    intros err w1 (Hcwd1 & Hch1 & _). wp_simpl.
    destruct err as [e|]; [now apply returns_ret|].
    apply IH; [assumption|].
    eapply (src_kept_changed (rel ++ [n])); eassumption.
Qed.

Lemma returns_walk fuel : forall rel info w,
  w_cwd w = cwd0 -> src_kept fs0 s (w_fs w) ->
  (exists e, fs0 !! (s ++ rel) = Some e /\ IsDir info = is_dir (Some e)) ->
  (forall r, is_Some (fs0 !! (s ++ rel ++ r)) -> (length r < fuel)%nat) ->
  returns (walk E fuel (copyDirectory_func E src dst) (sub src rel) info)
          (walk_post fs0 cwd0 s q rel w) w.
Proof.
  induction fuel as [|fuel IH]; intros rel info w Hcwd Hkept Hent Hdeep.
  { destruct Hent as (e & Hent & _). specialize (Hdeep []).
    rewrite app_nil_r in Hdeep. rewrite Hent in Hdeep.
    exfalso. assert (is_Some (Some e)) as Hs by eauto.
    apply Hdeep in Hs. simpl in Hs. lia. }
  eapply returns_mono.
  { apply returns_wp; [|apply wp_walk_mirror; eassumption].
    instantiate (1 := fun _ _ => True).
    cbn [walk]. destruct (IsDir info) eqn:Hd; cbn [negb].
    2:{ apply total_returns, total_copyDirectory_func. }
    apply returns_bind_wp; [apply total_readDirNames|]. wp_sys.
    - apply returns_bind.
      eapply returns_mono; [apply total_returns, total_copyDirectory_func|].
      intros err1 w1 _. wp_simpl. now apply returns_ret.
    - apply returns_bind. eapply returns_mono.
      { apply total_wp; [apply total_copyDirectory_func|].
        apply wp_func_dir; assumption. }
      intros err1 w1 (Hcwd1 & Hch1 & _). wp_simpl.
      destruct err1 as [e1|]; [now apply returns_ret|].
      apply (returns_walk_names (walk E fuel (copyDirectory_func E src dst)) rel);
        [|assumption|eapply src_kept_changed; eassumption].
      intros n info' w' Hc Hk He. apply IH; [assumption..|].
      intros r Hr. rewrite <- app_assoc in Hr. apply Hdeep in Hr.
      rewrite length_app in Hr. simpl in Hr. lia. }
  intros err w' [_ H]. exact H.
Qed.

Lemma returns_copyDirectory fuel w :
  w_cwd w = cwd0 -> w_fs w = fs0 -> deep_enough fs0 s fuel ->
  returns (copyDirectory E fuel src dst) (walk_post fs0 cwd0 s q [] w) w.
Proof.
  intros Hcwd Hfs Hdeep. eapply returns_mono.
  { apply returns_wp; [|apply wp_copyDirectory_mirror; eassumption].
    instantiate (1 := fun _ _ => True).
    unfold copyDirectory, filepath_Walk.
    apply returns_bind_wp; [apply total_os_Lstat|]. wp_sys.
    - apply total_returns, total_copyDirectory_func.
    - rewrite Hcwd, src_at, Hfs in Hstat.
      rewrite fs_lookup_ne in Hstat by apply s_nonempty.
      pose proof (returns_walk fuel [] {| IsDir := is_dir (Some n) |}
                    (log_event (EvLstat src) d w)) as Hw.
      rewrite sub_nil, app_nil_r in Hw. eapply returns_mono.
      { apply Hw; [assumption| |eauto|].
        - intros r. simpl. now rewrite Hfs.
        - intros r Hr. simpl in Hr.
          assert (s `prefix_of` s ++ r) as Hp by now apply prefix_app_r.
          specialize (Hdeep _ Hr Hp). rewrite length_app in Hdeep. lia. }
      auto. }
  intros err w' [_ H]. exact H.
Qed.

(** *** The walk succeeds when no call fails and nothing is in the way *)

Hypothesis no_fault : forall n, e_fault E n = None.

Ltac nf_step := first [ret_pure | apply (returns_emit E no_fault); wp_simpl].

Lemma nf_os_Lstat name (Q : option FileInfo * error -> world -> Prop) w n :
  fs_lookup (w_fs w) (resolve (w_cwd w) name) = Some n ->
  Q (Some {| IsDir := is_dir (Some n) |}, None) (log_event (EvLstat name) (cost E w) w) ->
  returns (os_Lstat E name) Q w.
Proof. intros H HQ. unfold os_Lstat. repeat nf_step. rewrite H. now nf_step. Qed.

Lemma nf_readDirNames name (Q : list string * error -> world -> Prop) w :
  is_dir (fs_lookup (w_fs w) (resolve (w_cwd w) name)) = true ->
  Q (dir_names (w_fs w) (resolve (w_cwd w) name), None)
    (log_event (EvReadDir name) (cost E w) w) ->
  returns (readDirNames E name) Q w.
Proof. intros H HQ. unfold readDirNames. repeat nf_step. rewrite H. now nf_step. Qed.

Lemma nf_os_MkdirAll name (Q : error -> world -> Prop) w fs' :
  mkdir_all (w_fs w) [] (resolve (w_cwd w) name) = Some fs' ->
  Q None (set_fs fs' (log_event (EvMkdirAll name) (cost E w) w)) ->
  returns (os_MkdirAll E name) Q w.
Proof. intros H HQ. unfold os_MkdirAll. repeat nf_step. rewrite H. now repeat nf_step. Qed.

Lemma nf_func_dir rel info w :
  w_cwd w = cwd0 -> IsDir info = true ->
  (forall k, k `prefix_of` q ++ rel -> w_fs w !! k = None \/ w_fs w !! k = Some Dir) ->
  returns (copyDirectory_func E src dst (sub src rel) (Some info) None)
    (fun err w' =>
       err = None /\ w_cwd w' = cwd0 /\
       (forall k, w_fs w' !! k = w_fs w !! k \/
                  (k `prefix_of` q ++ rel /\ w_fs w !! k = None /\
                   w_fs w' !! k = Some Dir)) /\
       w_fs w' !! (q ++ rel) = Some Dir) w.
Proof.
  intros Hcwd Hinfo Hfree. unfold copyDirectory_func.
  rewrite filepath_Rel_sub. simpl. rewrite Hinfo.
  destruct (mkdir_all_ok (q ++ rel) (w_fs w) [] Hfree) as [fs' Hmk].
  eapply nf_os_MkdirAll.
  { rewrite Hcwd, resolve_dst. exact Hmk. }
  apply mkdir_all_spec in Hmk as [Hk Ht]. simpl in Hk, Ht. simpl.
  split; [reflexivity|]. split; [assumption|]. split; [exact Hk|].
  apply Ht. intros Heq. apply app_eq_nil in Heq as [Heq _]. now apply q_nonempty.
Qed.

Lemma nf_walk_names rec rel :
  (forall n info w,
     w_cwd w = cwd0 -> src_kept fs0 s (w_fs w) ->
     (exists e, fs0 !! (s ++ rel ++ [n]) = Some e /\ IsDir info = is_dir (Some e)) ->
     dest_free (w_fs w) (q ++ rel ++ [n]) ->
     w_fs w !! (q ++ rel ++ [n]) = None ->
     w_fs w !! (q ++ rel) = Some Dir ->
     returns (rec (sub src (rel ++ [n])) info)
             (fun err w' =>
                err = None /\ walk_post fs0 cwd0 s q (rel ++ [n]) w err w') w) ->
  forall names w,
    NoDup names ->
    w_cwd w = cwd0 -> src_kept fs0 s (w_fs w) ->
    (forall n, n ∈ names -> is_Some (fs0 !! (s ++ rel ++ [n]))) ->
    w_fs w !! (q ++ rel) = Some Dir ->
    (forall k, k `prefix_of` q ++ rel -> w_fs w !! k = None \/ w_fs w !! k = Some Dir) ->
    (forall n k, n ∈ names -> (q ++ rel ++ [n]) `prefix_of` k -> w_fs w !! k = None) ->
    returns (walk_names E rec (copyDirectory_func E src dst) (sub src rel) names)
            (fun err _ => err = None) w.
Proof.
  intros Hrec names. induction names as [|n names IH];
    intros w Hnd Hcwd Hkept Hnames Hdir Habove Hbelow; cbn [walk_names].
  { now apply returns_ret. }
  apply NoDup_cons in Hnd as [Hnin Hnd]. rewrite sub_snoc.
  destruct (Hnames n) as [e He]; [apply list_elem_of_here|].
  assert (s ++ rel ++ [n] <> []) as Hne.
  { intros Heq. apply app_eq_nil in Heq as [Heq _]. now apply s_nonempty. }
  assert (w_fs w !! (q ++ rel ++ [n]) = None) as Hnone.
  { apply (Hbelow n); [apply list_elem_of_here|reflexivity]. }
  apply returns_bind. eapply nf_os_Lstat.
  { rewrite Hcwd, resolve_src. rewrite fs_lookup_ne by assumption.
    rewrite <- He. apply (Hkept (rel ++ [n])). }
  wp_simpl. apply returns_bind. eapply returns_mono.
  { apply Hrec; simpl; [assumption|assumption|eauto| |assumption|assumption].
    split.
    - intros k Hk. rewrite app_assoc in Hk.
      apply prefix_snoc_inv in Hk as [->|Hk]; [|now apply Habove].
      left. now rewrite <- app_assoc.
    - intros k Hk _. apply (Hbelow n); [apply list_elem_of_here|assumption]. }
  intros err w1 (-> & Hcwd1 & Hch1 & _). wp_simpl. simpl in Hch1.
  rewrite app_assoc in Hch1.
  apply IH; [assumption|assumption| | | | |].
  - apply (src_kept_changed (rel ++ [n]) (w_fs w)); [|assumption].
    now rewrite app_assoc.
  - intros n' Hn'. apply Hnames. now apply list_elem_of_further.
  - apply (changed_within_present _ _ _ _ _ Hch1 Hdir), prefix_snoc_not.
  - intros k Hk. destruct (Hch1 k) as [He'|[Hu|(Hp & Hn & Hd)]].
    + rewrite He'. now apply Habove.
    + exfalso. apply (prefix_snoc_not (q ++ rel) n). now transitivity k.
    + now right.
  - intros n' k Hn' Hp. rewrite app_assoc in Hp.
    assert (n' <> n) as Hneq by (intros ->; contradiction).
    destruct (Hch1 k) as [He'|[Hu|(Hp' & Hn'' & Hd)]].
    + rewrite He'. apply (Hbelow n'); [now apply list_elem_of_further|].
      now rewrite app_assoc.
    + exfalso. apply Hneq. eapply prefix_snoc_same; eassumption.
    + exfalso. apply Hneq. apply (prefix_snoc_same (q ++ rel) (q ++ rel ++ [n])).
      * rewrite (app_assoc q rel [n]). now transitivity k.
      * now rewrite (app_assoc q rel [n]).
Qed.

Lemma nf_walk fuel : forall rel info w,
  w_cwd w = cwd0 -> src_kept fs0 s (w_fs w) ->
  (exists e, fs0 !! (s ++ rel) = Some e /\ IsDir info = is_dir (Some e)) ->
  (forall r, is_Some (fs0 !! (s ++ rel ++ r)) -> (length r < fuel)%nat) ->
  dest_free (w_fs w) (q ++ rel) ->
  (IsDir info = false ->
   w_fs w !! (q ++ rel) = None /\
   is_dir (fs_lookup (w_fs w) (parent (q ++ rel))) = true) ->
  returns (walk E fuel (copyDirectory_func E src dst) (sub src rel) info)
          (fun err _ => err = None) w.
Proof.
  induction fuel as [|fuel IH];
    intros rel info w Hcwd Hkept (e & Hent & Hinfo) Hdeep Hfree Hfile.
  { specialize (Hdeep []). rewrite app_nil_r in Hdeep. rewrite Hent in Hdeep.
    exfalso. assert (is_Some (Some e)) as Hs by eauto.
    apply Hdeep in Hs. simpl in Hs. lia. }
  assert (s ++ rel <> []) as Hne.
  { intros Heq. apply app_eq_nil in Heq as [Heq _]. now apply s_nonempty. }
  assert (q ++ rel <> []) as Hqne.
  { intros Heq. apply app_eq_nil in Heq as [Heq _]. now apply q_nonempty. }
  pose proof (Hkept rel) as Hlive. rewrite Hent in Hlive.
  cbn [walk]. destruct (IsDir info) eqn:Hd; cbn [negb].
  - destruct e as [data b|]; [discriminate|].
    apply returns_bind. eapply nf_readDirNames.
    { rewrite Hcwd, resolve_src, fs_lookup_ne by assumption. now rewrite Hlive. }
    rewrite Hcwd, resolve_src. wp_simpl. apply returns_bind. eapply returns_mono.
    { apply nf_func_dir; [assumption|assumption|]. apply Hfree. }
    intros err1 w1 (-> & Hcwd1 & Hex & Hdir1). wp_simpl. simpl in Hex.
    assert (changed_within (q ++ rel) (w_fs w) (w_fs w1)) as Hch1.
    { intros k. destruct (Hex k) as [?|?]; auto. }
    apply (nf_walk_names (walk E fuel (copyDirectory_func E src dst)) rel).
    + intros n info' w' Hc Hk He Hfree' Hnone' Hpar'.
      apply returns_wp; [|now apply wp_walk_mirror].
      apply IH; [assumption|assumption|assumption| | |].
      * intros r Hr. rewrite <- app_assoc in Hr. apply Hdeep in Hr.
        rewrite length_app in Hr. simpl in Hr. lia.
      * assumption.
      * intros _. split; [assumption|].
        unfold parent. rewrite !app_assoc, removelast_last.
        rewrite fs_lookup_ne by assumption. now rewrite Hpar'.
    + apply NoDup_dir_names.
    + assumption.
    + eapply src_kept_changed; eassumption.
    + intros n Hn. apply elem_of_dir_names in Hn. rewrite <- app_assoc in Hn.
      now rewrite (Hkept (rel ++ [n])) in Hn.
    + assumption.
    + intros k Hk. destruct (Hex k) as [He'|(_ & _ & Hd')]; [|now right].
      rewrite He'. now apply Hfree.
    + intros n k Hn Hp. rewrite app_assoc in Hp.
      destruct (Hex k) as [He'|(Hp' & _)].
      * rewrite He'. apply Hfree.
        -- transitivity ((q ++ rel) ++ [n]); [now apply prefix_app_r|assumption].
        -- intros ->. now apply prefix_snoc_not in Hp.
      * exfalso. apply (prefix_snoc_not (q ++ rel) n). now transitivity k.
  - destruct e as [data b|]; [|discriminate].
    destruct (Hfile eq_refl) as [Hnone Hpar].
    unfold copyDirectory_func. rewrite filepath_Rel_sub. simpl. rewrite Hd.
    apply (copyFile_nf E no_fault _ _ _ data b).
    + rewrite Hcwd, resolve_src. apply fs_lookup_File. auto.
    + rewrite Hcwd, resolve_dst, fs_lookup_ne by assumption. now rewrite Hnone.
    + now rewrite Hcwd, resolve_dst.
Qed.

Lemma nf_copyDirectory fuel w :
  w_cwd w = cwd0 -> w_fs w = fs0 -> fs0 !! s = Some Dir ->
  deep_enough fs0 s fuel -> dest_free fs0 q ->
  returns (copyDirectory E fuel src dst) (fun err _ => err = None) w.
Proof.
  intros Hcwd Hfs Hdir Hdeep Hfree. unfold copyDirectory, filepath_Walk.
  apply returns_bind. eapply nf_os_Lstat.
  { rewrite Hcwd, src_at, Hfs. rewrite fs_lookup_ne by apply s_nonempty. exact Hdir. }
  wp_simpl.
  pose proof (nf_walk fuel [] {| IsDir := true |} (log_event (EvLstat src) (cost E w) w))
    as Hw.
  rewrite sub_nil, !app_nil_r in Hw. apply Hw; simpl.
  - assumption.
  - intros r. now rewrite Hfs.
  - eauto.
  - intros r Hr. assert (s `prefix_of` s ++ r) as Hp by now apply prefix_app_r.
    specialize (Hdeep _ Hr Hp). rewrite length_app in Hdeep. lia.
  - now rewrite Hfs.
  - discriminate.
Qed.

End Mirror.

(** In a file system where every entry lies in a directory, every entry
    below [p] is reached from [p]. *)
Lemma fs_wf_reachable fs p r n :
  fs_wf fs -> p <> [] -> fs !! (p ++ r) = Some n -> reachable fs p r.
Proof.
  intros Hwf Hp Hn r1 r2. revert r1 r n Hn.
  induction r2 as [|x r2 IH] using rev_ind; intros r1 r n Hn -> Hne; [congruence|].
  rewrite !app_assoc in Hn. pose proof (Hwf _ _ Hn) as Hpar.
  unfold parent in Hpar. rewrite removelast_last in Hpar.
  destruct r2 as [|y r2].
  - rewrite app_nil_r in Hpar. rewrite fs_lookup_ne in Hpar.
    + destruct (fs !! (p ++ r1)) as [[|]|]; simpl in Hpar; congruence.
    + intros Heq. apply app_eq_nil in Heq as [Heq _]. contradiction.
  - rewrite fs_lookup_ne in Hpar.
    + destruct (fs !! ((p ++ r1) ++ y :: r2)) as [[|]|] eqn:He; simpl in Hpar;
        try congruence.
      rewrite <- app_assoc in He. eapply IH; [exact He|reflexivity|discriminate].
    + intros Heq. apply app_eq_nil in Heq as [Heq _].
      apply app_eq_nil in Heq as [Heq _]. contradiction.
Qed.

Lemma deep_enoughb_true fs p fuel : deep_enoughb fs p fuel = true -> deep_enough fs p fuel.
Proof.
  unfold deep_enoughb. intros H k [v Hv] Hp. apply bool_decide_eq_true in H.
  exact (H k v Hv Hp).
Qed.

Lemma dest_freeb_true fs q : dest_freeb fs q = true -> dest_free fs q.
Proof.
  unfold dest_freeb. intros H. apply bool_decide_eq_true in H. split.
  - intros k Hk. destruct (fs !! k) as [v|] eqn:Hv; [|now left].
    right. f_equal. now apply (H k v Hv).
  - intros k Hk Hne. destruct (fs !! k) as [v|] eqn:Hv; [|reflexivity].
    exfalso. apply Hne. now apply (H k v Hv).
Qed.

(** C8, as amended. Let the source and the destination lie apart, neither
    at or below the other, and let the walk be given more fuel than the
    source is deep. Then copyDirectory returns; whatever it returns, nothing
    at or below the source has changed; when it returns nil, every entry
    reached from the source through directories has its copy at the same
    relative path below the destination, a directory for a directory and a
    synced file with the same bytes for a file; and it does return nil when
    no call fails, the source is a directory and nothing but directories
    above the destination is in the way. *)
Theorem copyDirectory_mirrors_trees_that_lie_apart
    (E : env) fuel src dst w :
  apart (resolve (w_cwd w) src) (resolve (w_cwd w) dst) ->
  deep_enough (w_fs w) (resolve (w_cwd w) src) fuel ->
  exists err w',
    copyDirectory E fuel src dst w = Some (err, w') /\
    w_cwd w' = w_cwd w /\
    (forall r, w_fs w' !! (resolve (w_cwd w) src ++ r)
               = w_fs w !! (resolve (w_cwd w) src ++ r)) /\
    (err = None ->
       forall r n,
         reachable (w_fs w) (resolve (w_cwd w) src) r ->
         w_fs w !! (resolve (w_cwd w) src ++ r) = Some n ->
         mirrored n (w_fs w' !! (resolve (w_cwd w) dst ++ r))) /\
    ((forall n, e_fault E n = None) ->
     w_fs w !! resolve (w_cwd w) src = Some Dir ->
     dest_free (w_fs w) (resolve (w_cwd w) dst) ->
     err = None).
Proof.
  intros Hapart Hdeep.
  destruct (returns_copyDirectory E (w_fs w) (w_cwd w) _ _ Hapart src dst
              eq_refl eq_refl fuel w eq_refl eq_refl Hdeep)
    as (err & w' & Hrun & Hcwd & Hch & Hm).
  exists err, w'. split; [assumption|]. split; [assumption|]. split; [|split].
  - apply (src_kept_changed (w_fs w) _ _ Hapart [] (w_fs w)); [|intros r; reflexivity].
    exact Hch.
  - intros Herr r n Hreach Hn. specialize (Hm Herr r n).
    rewrite !app_nil_r in Hm. simpl in Hm. auto.
  - intros Hnf Hdir Hfree.
    destruct (nf_copyDirectory E (w_fs w) (w_cwd w) _ _ Hapart src dst
                eq_refl eq_refl Hnf fuel w eq_refl eq_refl Hdir Hdeep Hfree)
      as (err' & w'' & Hrun' & ->).
    congruence.
Qed.

(** The template and a fresh workspace lie apart: the copy of the template
    mirrors it. *)
Lemma copyDirectory_mirrors_the_template :
  apart (resolve (w_cwd boot) template_root)
        (resolve (w_cwd boot) (Abs ["mnt"; "persistent"; "ws"])) /\
  deep_enough (w_fs boot) (resolve (w_cwd boot) template_root) 3 /\
  exists err w',
    copyDirectory (calm "typescript" (exits_with 0 "" "")) 3 template_root
      (Abs ["mnt"; "persistent"; "ws"]) boot = Some (err, w') /\
    w_cwd w' = w_cwd boot /\
    (forall r, w_fs w' !! (resolve (w_cwd boot) template_root ++ r)
               = w_fs boot !! (resolve (w_cwd boot) template_root ++ r)) /\
    (err = None ->
       forall r n,
         reachable (w_fs boot) (resolve (w_cwd boot) template_root) r ->
         w_fs boot !! (resolve (w_cwd boot) template_root ++ r) = Some n ->
         mirrored n (w_fs w' !! (resolve (w_cwd boot) (Abs ["mnt"; "persistent"; "ws"]) ++ r))) /\
    ((forall n, e_fault (calm "typescript" (exits_with 0 "" "")) n = None) ->
     w_fs boot !! resolve (w_cwd boot) template_root = Some Dir ->
     dest_free (w_fs boot) (resolve (w_cwd boot) (Abs ["mnt"; "persistent"; "ws"])) ->
     err = None).
Proof.
  assert (apart (resolve (w_cwd boot) template_root)
                (resolve (w_cwd boot) (Abs ["mnt"; "persistent"; "ws"]))) as Ha.
  { split; intros [t Ht]; discriminate. }
  assert (deep_enough (w_fs boot) (resolve (w_cwd boot) template_root) 3) as Hd.
  { apply deep_enoughb_true. vm_compute. reflexivity. }
  split; [exact Ha|]. split; [exact Hd|].
  exact (copyDirectory_mirrors_trees_that_lie_apart
           (calm "typescript" (exits_with 0 "" "")) 3 template_root
           (Abs ["mnt"; "persistent"; "ws"]) boot Ha Hd).
Defined.

(** C8 as stated fails where the two trees overlap: copied onto itself,
    a directory comes back with its file emptied, and copyDirectory returns
    nil. *)
Lemma copyDirectory_onto_itself_empties_files :
  exists w',
    copyDirectory (calm "typescript" (exits_with 0 "" "")) 3 template_root
      template_root boot = Some (None, w') /\
    w_fs boot !! ["tmp"; "dummy-pkg-ts"; "package.json"] = Some (File "{}" true) /\
    w_fs w' !! ["tmp"; "dummy-pkg-ts"; "package.json"] = Some (File "" true).
Proof. eexists. split; [vm_compute; reflexivity|]. split; vm_compute; reflexivity. Qed.

(** ** Runs on the concrete machine *)

Ltac run := vm_compute; reflexivity.
Ltac find_call := repeat first [apply list_elem_of_here | apply list_elem_of_further].

(** C2. A TypeScript request whose child exits with status 1, and one whose
    child is killed at the deadline, are answered with status 500 while the
    workspace directory, its index.ts and the staged entry file are still on
    the scratch root, the working directory is still the workspace, and no
    removal was attempted; the same request with a child that exits with
    status 0 removes all three and returns to the original directory. *)
Theorem failed_run_leaves_workspace_and_entry_file :
  (exists w',
     codeExecHandler (calm "typescript" (exits_with 1 "partial" "boom")) 3
       (post "code") boot
     = Some (http_Error
               (error_json "Execution error: failed to run ts-node: exit status 1")
               500, w') /\
     w_fs w' !! ["mnt"; "persistent"; "u3"] = Some Dir /\
     w_fs w' !! ["mnt"; "persistent"; "u3"; "index.ts"] = Some (File "code" true) /\
     w_fs w' !! ["mnt"; "persistent"; "u1.ts"] = Some (File "code" false) /\
     w_cwd boot = ["app"] /\ w_cwd w' = ["mnt"; "persistent"; "u3"] /\
     calls is_removal w' = []) /\
  (exists w',
     codeExecHandler (calm "typescript" (spins "partial")) 3 (post "code") boot
     = Some (http_Error
               (error_json "Execution error: execution timeout after 30 seconds")
               500, w') /\
     w_fs w' !! ["mnt"; "persistent"; "u3"] = Some Dir /\
     w_fs w' !! ["mnt"; "persistent"; "u3"; "index.ts"] = Some (File "code" true) /\
     w_fs w' !! ["mnt"; "persistent"; "u1.ts"] = Some (File "code" false) /\
     w_cwd w' = ["mnt"; "persistent"; "u3"] /\
     calls is_removal w' = []) /\
  (exists resp w',
     codeExecHandler (calm "typescript" (exits_with 0 "hello" "")) 3 (post "code") boot
     = Some (resp, w') /\
     status resp = 200 /\
     w_fs w' !! ["mnt"; "persistent"; "u3"] = None /\
     w_fs w' !! ["mnt"; "persistent"; "u3"; "index.ts"] = None /\
     w_fs w' !! ["mnt"; "persistent"; "u1.ts"] = None /\
     w_cwd w' = ["app"] /\
     calls is_removal w'
       = [EvRemoveAll (Abs ["mnt"; "persistent"; "u3"]);
          EvRemove (Abs ["mnt"; "persistent"; "u1.ts"])]).
Proof.
  split; [|split].
  - eexists. split; [run|]. repeat split; run.
  - eexists. split; [run|]. repeat split; run.
  - do 2 eexists. split; [run|]. repeat split; run.
Qed.

(** C3. A child that wrote to both streams and exited with status 1:
    handleJavaScriptExecution returns two empty strings with the error,
    executeTypescript returns what the child wrote with the error, and the
    handler answers either request with the error text alone. *)
Theorem nonzero_exit_drops_captured_output :
  (exists w' c,
     handleJavaScriptExecution (calm "javascript" (exits_with 1 "partial" "boom"))
       (entry_file "u1" "javascript")
       (staged_world (sample "javascript") "u1" 1 1 1 boot)
     = Some (("", "", Some "command execution error: exit status 1"), w') /\
     w_children w' = [c] /\ c_state c = Exited 1 /\
     p_stdout (c_beh c) = "partial" /\ p_stderr (c_beh c) = "boom") /\
  (exists w',
     codeExecHandler (calm "javascript" (exits_with 1 "partial" "boom")) 3
       (post "code") boot
     = Some (http_Error
               (error_json "Execution error: command execution error: exit status 1")
               500, w')) /\
  (exists w',
     executeTypescript (calm "typescript" (exits_with 1 "partial" "boom")) 3
       (entry_file "u1" "typescript")
       (staged_world (sample "typescript") "u1" 1 1 1 boot)
     = Some (("partial", "boom", Some "failed to run ts-node: exit status 1"), w')) /\
  (exists w',
     codeExecHandler (calm "typescript" (exits_with 1 "partial" "boom")) 3
       (post "code") boot
     = Some (http_Error
               (error_json "Execution error: failed to run ts-node: exit status 1")
               500, w')).
Proof.
  split; [|split; [|split]].
  - do 2 eexists. split; [run|]. repeat split; run.
  - eexists. run.
  - eexists. run.
  - eexists. run.
Qed.

(** A request in python is turned down on the concrete machine. *)
Lemma python_is_rejected_without_side_effect :
  r_Method (post "code") = "POST" /\
  r_BodyErr (post "code") = None /\
  e_unmarshal (calm "python" (exits_with 0 "" "")) (r_Body (post "code"))
    = Some (sample "python") /\
  (Language (sample "python") ∉ ["javascript"; "typescript"]) /\
  exists w' s d,
    codeExecHandler (calm "python" (exits_with 0 "" "")) 0 (post "code") boot
      = Some (http_Error (error_json "Language not supported") 400, w') /\
    w_fs w' = w_fs boot /\ w_cwd w' = w_cwd boot /\
    w_children w' = w_children boot /\
    w_trace w' = w_trace boot ++ [(EvPrint s, d)].
Proof.
  assert (Language (sample "python") ∉ ["javascript"; "typescript"]) as Hno.
  { intros H. repeat (apply elem_of_cons in H as [H|H]; [discriminate|]).
    now apply elem_of_nil in H. }
  split; [reflexivity|]. split; [reflexivity|]. split; [reflexivity|].
  split; [exact Hno|].
  exact (unsupported_language_rejected_without_side_effect
           (calm "python" (exits_with 0 "" "")) 0 (post "code") boot (sample "python")
           eq_refl eq_refl eq_refl Hno).
Defined.

(** A JavaScript child that never exits is waited for until the minute is
    over. *)
Lemma spinning_javascript_is_cut_after_a_minute :
  exists r w' evs pid d,
    handleJavaScriptExecution (calm "javascript" (spins "partial"))
      (entry_file "u1" "javascript")
      (staged_world (sample "javascript") "u1" 1 1 1 boot) = Some (r, w') /\
    w_trace w' = w_trace (staged_world (sample "javascript") "u1" 1 1 1 boot) ++ evs /\
    (EvWait pid, d) ∈ evs /\
    exists c,
      w_children w' !! pid = Some c /\
      ctx_timeout (c_ctx c) = 60 * 1000 /\
      ctx_deadline (c_ctx c)
        = w_clock (staged_world (sample "javascript") "u1" 1 1 1 boot) + 60 * 1000 /\
      (ctx_deadline (c_ctx c) <= w_clock w' <->
       r = ("", "", Some ("command timed out after " +:+ pretty 10 +:+ " seconds"))) /\
      (overruns c -> c_state c = Killed /\ ctx_deadline (c_ctx c) <= w_clock w') /\
      pretty 10 <> pretty (ctx_timeout (c_ctx c) `div` 1000).
Proof.
  do 5 eexists.
  lazymatch goal with |- ?A /\ _ => assert A as Hrun by run end.
  lazymatch goal with |- _ /\ ?A /\ _ => assert A as Htr by (simpl; reflexivity) end.
  lazymatch goal with |- _ /\ _ /\ ?A /\ _ => assert A as Hin by find_call end.
  split; [exact Hrun|]. split; [exact Htr|]. split; [exact Hin|].
  exact (javascript_timeout_says_10_enforces_60 _ _ _ _ _ _ _ _ Hrun Htr Hin).
Defined.




(** The time reported for a TypeScript request covers its staging and its
    removal. *)
Lemma typescript_request_reports_staging_and_removal :
  exists resp w' evs,
    codeExecHandler (calm "typescript" (exits_with 0 "hello" "")) 3 (post "code") boot
      = Some (resp, w') /\
    w_trace w' = w_trace boot ++ evs /\
    status resp = 200 /\
    exists req u out err s d0 d1 d2 rest,
      e_unmarshal (calm "typescript" (exits_with 0 "hello" "")) (r_Body (post "code"))
        = Some req /\
      evs = (EvPrint s, d0) :: (EvUUID, d1)
            :: (EvWriteFile (entry_file u (Language req)), d2) :: rest /\
      body resp = success_body out err
                    (total_duration
                       ((EvWriteFile (entry_file u (Language req)), d2) :: rest)) /\
      (exists pid d, (EvWait pid, d) ∈ rest) /\
      (exists d, (EvRemove (entry_file u (Language req)), d) ∈ rest) /\
      (Language req = "typescript" ->
         exists u',
           (exists d, (EvMkdir (Rel [u']), d) ∈ rest) /\
           (exists d, (EvLstat template_root, d) ∈ rest) /\
           (exists d, (EvRemoveAll (Abs ["mnt"; "persistent"; u']), d) ∈ rest)).
Proof.
  do 3 eexists.
  lazymatch goal with |- ?A /\ _ => assert A as Hrun by run end.
  lazymatch goal with |- _ /\ ?A /\ _ => assert A as Htr by (simpl; reflexivity) end.
  lazymatch goal with |- _ /\ _ /\ ?A /\ _ => assert A as Hst by reflexivity end.
  split; [exact Hrun|]. split; [exact Htr|]. split; [exact Hst|].
  exact (elapsed_spans_staging_to_removal _ _ _ _ _ _ _ Hrun Htr Hst).
Defined.

(** C6 as stated fails: the child of a TypeScript request was started and
    waited for during 12 milliseconds, and the request reports 47. *)
Lemma reported_time_exceeds_the_supervised_run :
  exists w',
    codeExecHandler (calm "typescript" (exits_with 0 "hello" "")) 3 (post "code") boot
      = Some ({| status := 200; content_type := "application/json";
                 body := success_body "hello" "" 47 |}, w') /\
    timed_calls is_supervision w'
      = [(EvStart ["ts-node"; "index.ts"], 1); (EvWait 0%nat, 11)] /\
    total_duration [(EvStart ["ts-node"; "index.ts"], 1); (EvWait 0%nat, 11)] = 12 /\
    total_duration (w_trace w') = 49.
Proof. eexists. split; [run|]. repeat split; run. Qed.

(** ** Further properties of the handler *)

(** X1. isLanguageSupported returns true exactly for the elements of the
    list it is given; strings are compared as they are, so that for the
    list of the handler the two names in lower case pass and the same names
    in another case do not. *)
Theorem isLanguageSupported_is_exact_membership :
  (forall language supported,
     isLanguageSupported language supported = true <-> language ∈ supported) /\
  (forall language,
     isLanguageSupported language ["javascript"; "typescript"] = true <->
     language = "javascript" \/ language = "typescript") /\
  isLanguageSupported "JavaScript" ["javascript"; "typescript"] = false /\
  isLanguageSupported "" ["javascript"; "typescript"] = false.
Proof.
  split; [exact isLanguageSupported_spec|]. split; [|split; reflexivity].
  intros language. rewrite isLanguageSupported_spec, !elem_of_cons, elem_of_nil.
  tauto.
Qed.

(** X2. The list of supported languages of the handler and the table of
    extensions agree: a language passes the check exactly when the table
    has an extension for it, the extension is .js or .ts, and two languages
    never share one. *)
Theorem supported_languages_are_those_with_an_extension :
  (forall language,
     isLanguageSupported language ["javascript"; "typescript"] = true <->
     is_Some (LANGUAGE_EXTENSIONS !! language)) /\
  (forall language ext,
     LANGUAGE_EXTENSIONS !! language = Some ext -> ext = ".js" \/ ext = ".ts") /\
  (forall l1 l2 ext,
     LANGUAGE_EXTENSIONS !! l1 = Some ext -> LANGUAGE_EXTENSIONS !! l2 = Some ext ->
     l1 = l2).
Proof.
  assert (forall language ext,
            LANGUAGE_EXTENSIONS !! language = Some ext <->
            (language = "javascript" /\ ext = ".js") \/
            (language = "typescript" /\ ext = ".ts")) as Htab.
  { intros language ext. unfold LANGUAGE_EXTENSIONS.
    rewrite !lookup_insert_Some, lookup_empty. split.
    - intros [[<- <-]|[Hne [[<- <-]|[_ H]]]]; [now left|now right|discriminate].
    - intros [[-> ->]|[-> ->]]; [now left|]. right. split; [discriminate|now left]. }
  split; [|split].
  - intros language. rewrite isLanguageSupported_spec, !elem_of_cons, elem_of_nil.
    split.
    + intros [->|[->|[]]]; eexists; apply Htab; [left|right]; split; reflexivity.
    + intros [ext Hext]. apply Htab in Hext as [[-> _]|[-> _]]; auto.
  - intros language ext Hext. apply Htab in Hext as [[_ ->]|[_ ->]]; auto.
  - intros l1 l2 ext H1 H2.
    apply Htab in H1 as [[-> ->]|[-> ->]]; apply Htab in H2 as [[-> H]|[-> H]];
      first [reflexivity | discriminate H].
Qed.

Section Answers.
Variable E : env.

(** X3. A request that is not a POST, or whose body cannot be read or
    decoded, is answered without a single call: the world is left exactly
    as it was. The answer is 405 exactly when the method is not POST,
    whatever the body, and 400 otherwise. *)
Theorem malformed_request_is_answered_without_a_call fuel r w :
  r_Method r <> "POST" \/ r_BodyErr r <> None \/ e_unmarshal E (r_Body r) = None ->
  exists resp,
    codeExecHandler E fuel r w = Some (resp, w) /\
    is_error_answer resp /\
    (status resp = 405 <-> r_Method r <> "POST") /\
    (status resp = 400 <-> r_Method r = "POST").
Proof.
  intros Hbad. unfold codeExecHandler. case_bool_decide as Hm; cbn [negb].
  2:{ eexists. split; [reflexivity|]. split.
      - exists "Invalid request method", 405. auto.
      - simpl. split; split; intros; congruence. }
  destruct (r_BodyErr r) as [e|] eqn:Hb.
  { eexists. split; [reflexivity|]. split.
    - exists "Unable to read request body", 400. auto.
    - simpl. split; split; intros; congruence. }
  destruct (e_unmarshal E (r_Body r)) as [req|] eqn:Hu.
  { exfalso. destruct Hbad as [?|[?|?]]; congruence. }
  eexists. split; [reflexivity|]. split.
  - exists "Invalid JSON format", 400. auto.
  - simpl. split; split; intros; congruence.
Qed.

(** X4. When the scratch root /mnt/persistent is not a directory, a
    request in a supported language is answered 500 with the error of
    os.WriteFile; no file is written, the working directory stays, and no
    process is spawned. *)
Theorem missing_scratch_root_is_a_write_error fuel r w req :
  r_Method r = "POST" -> r_BodyErr r = None ->
  e_unmarshal E (r_Body r) = Some req ->
  Language req ∈ ["javascript"; "typescript"] ->
  is_dir (fs_lookup (w_fs w) ["mnt"; "persistent"]) = false ->
  exists e w',
    codeExecHandler E fuel r w
      = Some (http_Error (error_json ("Unable to write file: " +:+ e)) 500, w') /\
    w_fs w' = w_fs w /\ w_cwd w' = w_cwd w /\ w_children w' = w_children w /\
    exists s p d0 d1 d2,
      w_trace w' = w_trace w ++ [(EvPrint s, d0); (EvUUID, d1); (EvWriteFile p, d2)].
Proof.
  intros Hm Hb Hu Hlang Hroot. unfold codeExecHandler.
  rewrite bool_decide_eq_true_2 by assumption. cbn [negb]. rewrite Hb, Hu.
  apply isLanguageSupported_spec in Hlang.
  unfold fmt_Printf, uuid_New_String, time_Now, os_WriteFile, emit, bind, ret,
    get, modify.
  rewrite Hlang. cbn [negb].
  set (w1 := log_event _ _ w). set (w2 := log_event EvUUID _ w1).
  set (name := e_uuid E _ +:+ _).
  set (w3 := log_event _ _ w2).
  assert (exists s p d0 d1 d2,
            w_trace w3 = w_trace w ++ [(EvPrint s, d0); (EvUUID, d1); (EvWriteFile p, d2)])
    as Hcalls.
  { do 5 eexists. subst w3 w2 w1. simpl. rewrite <- !app_assoc. reflexivity. }
  destruct (fault E w2) as [e|].
  { exists e, w3. auto. }
  cbn [resolve w_cwd w_fs set_fs log_event w3 w2 w1].
  change (parent ["mnt"; "persistent"; name]) with ["mnt"; "persistent"].
  rewrite Hroot.
  destruct (fs_lookup (w_fs w) ["mnt"; "persistent"; name]) as [[|]|];
    eexists _, w3; auto.
Qed.

End Answers.

(** A GET is answered 405 on the concrete machine. *)
Lemma get_is_answered_405_without_a_call :
  (r_Method (get_request "code") <> "POST" \/ r_BodyErr (get_request "code") <> None \/
   e_unmarshal (calm "javascript" (exits_with 0 "" "")) (r_Body (get_request "code")) = None) /\
  exists resp,
    codeExecHandler (calm "javascript" (exits_with 0 "" "")) 0 (get_request "code") bare
      = Some (resp, bare) /\
    is_error_answer resp /\
    (status resp = 405 <-> r_Method (get_request "code") <> "POST") /\
    (status resp = 400 <-> r_Method (get_request "code") = "POST").
Proof.
  assert (r_Method (get_request "code") <> "POST" \/ r_BodyErr (get_request "code") <> None \/
          e_unmarshal (calm "javascript" (exits_with 0 "" "")) (r_Body (get_request "code"))
            = None) as H by (left; discriminate).
  split; [exact H|].
  exact (malformed_request_is_answered_without_a_call
           (calm "javascript" (exits_with 0 "" "")) 0 (get_request "code") bare H).
Defined.

(** On a machine without /mnt/persistent a JavaScript request is answered
    500. *)
Lemma blank_machine_cannot_stage :
  r_Method (post "code") = "POST" /\ r_BodyErr (post "code") = None /\
  e_unmarshal (calm "javascript" (exits_with 0 "" "")) (r_Body (post "code"))
    = Some (sample "javascript") /\
  (Language (sample "javascript") ∈ ["javascript"; "typescript"]) /\
  is_dir (fs_lookup (w_fs blank) ["mnt"; "persistent"]) = false /\
  exists e w',
    codeExecHandler (calm "javascript" (exits_with 0 "" "")) 0 (post "code") blank
      = Some (http_Error (error_json ("Unable to write file: " +:+ e)) 500, w') /\
    w_fs w' = w_fs blank /\ w_cwd w' = w_cwd blank /\
    w_children w' = w_children blank /\
    exists s p d0 d1 d2,
      w_trace w' = w_trace blank ++ [(EvPrint s, d0); (EvUUID, d1); (EvWriteFile p, d2)].
Proof.
  assert (Language (sample "javascript") ∈ ["javascript"; "typescript"]) as Hin
    by apply list_elem_of_here.
  do 3 (split; [reflexivity|]). split; [exact Hin|]. split; [reflexivity|].
  exact (missing_scratch_root_is_a_write_error
           (calm "javascript" (exits_with 0 "" "")) 0 (post "code") blank
           (sample "javascript") eq_refl eq_refl eq_refl Hin eq_refl).
Defined.

Lemma wp_any {A} (m : M A) w : wp m (fun _ _ => True) w.
Proof. unfold wp. now destruct (m w) as [[a w']|]. Qed.

Ltac wp_skip_pipeline :=
  lazymatch goal with
  | |- wp (handleJavaScriptExecution _ _) _ _ =>
      eapply wp_mono; [apply wp_any | intros [[?out ?errout] ?err] ?w2 _]
  | |- wp (handleTypeScriptExecution _ _ _) _ _ =>
      eapply wp_mono; [apply wp_any | intros [[?out ?errout] ?err] ?w2 _]
  end; wp_simpl.

Section Shape.
Variable E : env.

Lemma wp_codeExecHandler_answer fuel r w :
  wp (codeExecHandler E fuel r)
     (fun resp _ => is_error_answer resp \/ is_success_answer resp) w.
Proof.
  unfold codeExecHandler.
  repeat (first [wp_step | wp_sys | wp_skip_pipeline]).
  all: first [ left; do 2 eexists; split; [reflexivity|]; auto; fail
             | right; do 3 eexists; reflexivity ].
Qed.

(** X5. Whatever the request, the answer of codeExecHandler is either an
    error line of http.Error with status 400, 405 or 500, or the success
    envelope with status 200. A request answered 400 or 405 has changed no
    file, has left the working directory and has spawned no process; and no
    request spawns more than one process. *)
Theorem every_answer_is_an_error_line_or_the_envelope fuel r w resp w' :
  codeExecHandler E fuel r w = Some (resp, w') ->
  (is_error_answer resp \/ is_success_answer resp) /\
  (status resp = 400 \/ status resp = 405 ->
   w_fs w' = w_fs w /\ w_cwd w' = w_cwd w /\ w_children w' = w_children w) /\
  (w_children w' = w_children w \/ exists c, w_children w' = w_children w ++ [c]).
Proof.
  intros Hrun. split.
  { exact (wp_elim _ _ _ _ _ (wp_codeExecHandler_answer fuel r w) Hrun). }
  destruct (handler_inv E _ _ _ _ _ Hrun) as [(Hst & Hfs & Hcwd & Hch & _)|Hran].
  { auto. }
  destruct Hran as (req & u & d0 & d1 & d2 & res & w2 & evs2 & Hu & _ & _ & _ & Hpipe & Hres).
  assert (w_children w2 = w_children w \/ exists c, w_children w2 = w_children w ++ [c])
    as Hch2.
  { destruct Hpipe as [[_ Hjs]|[_ Hts]].
    - destruct Hjs as (_ & _ & _ & _ & _ & [(Hch & _)|(c & Hch & _)]); eauto.
    - destruct Hts as (_ & _ & [(Hch & _)|(c & u' & Hch & _)]); eauto. }
  destruct (res.2) as [e|].
  - destruct Hres as [-> ->]. split; [|assumption].
    simpl. intros [?|?]; discriminate.
  - destruct Hres as (d3 & tail & _ & _ & _ & _ & Hch & ->). split.
    + simpl. intros [?|?]; discriminate.
    + now rewrite Hch.
Qed.

End Shape.

(** The answers to a GET and to a JavaScript request on the concrete
    machine. *)
Lemma javascript_answer_is_the_envelope :
  exists resp w',
    codeExecHandler (calm "javascript" (exits_with 0 "hello" "")) 0 (post "code") bare
      = Some (resp, w') /\
    (is_error_answer resp \/ is_success_answer resp) /\
    (status resp = 400 \/ status resp = 405 ->
     w_fs w' = w_fs bare /\ w_cwd w' = w_cwd bare /\ w_children w' = w_children bare) /\
    (w_children w' = w_children bare \/ exists c, w_children w' = w_children bare ++ [c]).
Proof.
  do 2 eexists.
  lazymatch goal with |- ?A /\ _ => assert A as Hrun by run end.
  split; [exact Hrun|].
  exact (every_answer_is_an_error_line_or_the_envelope _ _ _ _ _ _ Hrun).
Defined.

(** ** Further properties of the JavaScript pipeline *)


Section JavaScript.
Variable E : env.








End JavaScript.

(** ** The entry file of a JavaScript request *)

Lemma javascript_extension : default "" (LANGUAGE_EXTENSIONS !! "javascript") = ".js".
Proof. reflexivity. Qed.

Section EntryFile.
Variable E : env.



End EntryFile.


(** ** The workspace of a TypeScript run *)

Lemma fs_remove_all_below fs p k : p `prefix_of` k -> fs_remove_all fs p !! k = None.
Proof.
  intros [t ->]. unfold fs_remove_all. apply map_lookup_filter_None. right.
  intros x _. simpl. unfold under. rewrite strip_prefix_app.
  rewrite bool_decide_eq_true_2 by eauto. discriminate.
Qed.

Lemma fs_remove_all_elsewhere fs p k :
  ~ p `prefix_of` k -> fs_remove_all fs p !! k = fs !! k.
Proof.
  intros Hn. unfold fs_remove_all.
  destruct (fs !! k) as [v|] eqn:Hk.
  - apply map_lookup_filter_Some. split; [assumption|]. simpl. unfold under.
    apply bool_decide_eq_false. intros [t Ht]. apply strip_prefix_Some in Ht.
    apply Hn. subst k. now apply prefix_app_r.
  - apply map_lookup_filter_None. now left.
Qed.

Section Workspace.
Variable E : env.

Lemma wp_executeTypescript_workspace fuel filePath w :
  wp (executeTypescript E fuel filePath)
     (fun r w' =>
        r.2 = None ->
        exists u c,
          (exists d, (EvMkdir (Rel [u]), d) ∈ w_trace w') /\
          w_children w' = w_children w ++ [c] /\ c_state c = Exited 0 /\
          ((exists s d, last (w_trace w') = Some (EvLog s, d)) \/
           forall k, ["mnt"; "persistent"; u] `prefix_of` k -> w_fs w' !! k = None)) w.
Proof.
  unfold executeTypescript. wp_all.
  all: intros Hr; try discriminate Hr.
  all: open_extends; wp_simpl.
  all: exists u; eexists.
  all: split;
    [ repeat match goal with
             | Ht : w_trace ?x = _ |- context [w_trace ?x] => rewrite Ht
             end;
      rewrite <- ?app_assoc; simpl; event_here | ].
  all: split; [reflexivity|].
  all: split; [reflexivity|].
  - left. do 2 eexists. apply last_snoc.
  - right. intros k Hk. now apply fs_remove_all_below.
Qed.

(** X8. When executeTypescript returns a nil error, the child it spawned
    has exited with status 0, the two strings are what that child wrote,
    and the working directory is the one the call started in; and unless
    the last call was the warning about a failed removal, nothing is left
    at or below the workspace /mnt/persistent/<uuid> it had created. *)
Theorem successful_typescript_run_removes_its_workspace
    fuel filePath w out errout w' :
  executeTypescript E fuel filePath w = Some ((out, errout, None), w') ->
  exists u c,
    (exists d, (EvMkdir (Rel [u]), d) ∈ w_trace w') /\
    w_children w' = w_children w ++ [c] /\
    c_state c = Exited 0 /\
    out = p_stdout (c_beh c) /\ errout = p_stderr (c_beh c) /\
    w_cwd w' = w_cwd w /\
    ((forall s d, last (w_trace w') <> Some (EvLog s, d)) ->
     forall k, ["mnt"; "persistent"; u] `prefix_of` k -> w_fs w' !! k = None).
Proof.
  intros Hrun.
  destruct (wp_elim _ _ _ _ _ (wp_executeTypescript_workspace fuel filePath w) Hrun
              eq_refl) as (u & c & Hmk & Hch & Hst & Hfs).
  destruct (wp_elim _ _ _ _ _ (wp_executeTypescript E fuel filePath w) Hrun)
    as (evs & _ & _ & [(_ & _ & Hne)|(c' & u' & Hch' & _ & _ & _ & _ & _ & _ & _ & _ & Hok)]).
  { now contradiction Hne. }
  destruct (Hok eq_refl) as (Hout & Hcwd & _). simpl in Hout.
  rewrite Hch in Hch'. apply app_inj_tail in Hch' as [_ <-].
  exists u, c. split; [assumption|]. split; [assumption|]. split; [assumption|].
  split; [congruence|]. split; [congruence|]. split; [assumption|].
  intros Hnolog. destruct Hfs as [(s & d & Hlog)|Hfs]; [|assumption].
  now apply Hnolog in Hlog.
Qed.

End Workspace.

(** A TypeScript run on the concrete machine. *)
Lemma typescript_run_on_the_template_cleans_up :
  exists out errout w',
    executeTypescript (calm "typescript" (exits_with 0 "hello" "")) 3
      (entry_file "u1" "typescript")
      (staged_world (sample "typescript") "u1" 1 1 1 boot)
    = Some ((out, errout, None), w') /\
    exists u c,
      (exists d, (EvMkdir (Rel [u]), d) ∈ w_trace w') /\
      w_children w'
        = w_children (staged_world (sample "typescript") "u1" 1 1 1 boot) ++ [c] /\
      c_state c = Exited 0 /\
      out = p_stdout (c_beh c) /\ errout = p_stderr (c_beh c) /\
      w_cwd w' = w_cwd (staged_world (sample "typescript") "u1" 1 1 1 boot) /\
      ((forall s d, last (w_trace w') <> Some (EvLog s, d)) ->
       forall k, ["mnt"; "persistent"; u] `prefix_of` k -> w_fs w' !! k = None).
Proof.
  do 3 eexists.
  lazymatch goal with |- ?A /\ _ => assert A as Hrun by run end.
  split; [exact Hrun|].
  exact (successful_typescript_run_removes_its_workspace _ _ _ _ _ _ _ Hrun).
Defined.

(** ** Further properties of copyFile and copyDirectory *)

Lemma keeps_refl fs : keeps fs fs.
Proof. intros k. auto. Qed.

Lemma keeps_trans fs1 fs2 fs3 : keeps fs1 fs2 -> keeps fs2 fs3 -> keeps fs1 fs3.
Proof. intros H12 H23 k. destruct (H12 k), (H23 k). auto. Qed.

Lemma keeps_insert_file fs k data b :
  fs !! k <> Some Dir -> keeps fs (<[k := File data b]> fs).
Proof.
  intros Hk j. destruct (decide (j = k)) as [->|Hne].
  - rewrite lookup_insert_eq. split; [eauto|congruence].
  - rewrite lookup_insert_ne by congruence. auto.
Qed.

Lemma keeps_mkdir_all fs pre rest fs' : mkdir_all fs pre rest = Some fs' -> keeps fs fs'.
Proof.
  intros H. apply mkdir_all_spec in H as [H _]. intros k.
  destruct (H k) as [->|(_ & Hn & Hd)]; [auto|].
  rewrite Hn, Hd. split; [eauto|discriminate].
Qed.

Lemma fs_lookup_not_Dir fs p : fs_lookup fs p <> Some Dir -> fs !! p <> Some Dir.
Proof. destruct p; simpl; [congruence|auto]. Qed.

Section Keeps.
Variable E : env.

Lemma wp_copyFile_keeps src dest w :
  wp (copyFile E src dest) (fun _ w' => keeps (w_fs w) (w_fs w')) w.
Proof.
  unfold copyFile. wp_step. wp_sys; [wp_all; apply keeps_refl|].
  wp_step. wp_step. wp_sys; [wp_all; apply keeps_refl|].
  apply fs_lookup_not_Dir in Hnd.
  assert (keeps (w_fs w) (<[resolve (w_cwd w) dest := File "" false]> (w_fs w))) as H1
    by now apply keeps_insert_file.
  wp_all; try exact H1.
  all: eapply keeps_trans; [exact H1|].
  all: repeat first
    [ apply keeps_refl
    | eapply keeps_trans;
      [apply keeps_insert_file; rewrite ?lookup_insert_eq; congruence|] ].
Qed.

Lemma wp_copyDirectory_func_keeps srcDir destDir p i e w :
  wp (copyDirectory_func E srcDir destDir p i e)
     (fun _ w' => keeps (w_fs w) (w_fs w')) w.
Proof.
  unfold copyDirectory_func. destruct e; [apply wp_ret, keeps_refl|].
  destruct (filepath_Rel srcDir p) as [[rel|] [er|]];
    try (apply wp_ret, keeps_refl).
  destruct (info_IsDir i); [|apply wp_copyFile_keeps].
  wp_sys; [apply keeps_refl|]. eapply keeps_mkdir_all; eassumption.
Qed.

Lemma wp_walk_names_keeps rec fn :
  (forall p i w, wp (rec p i) (fun _ w' => keeps (w_fs w) (w_fs w')) w) ->
  (forall p i e w, wp (fn p i e) (fun _ w' => keeps (w_fs w) (w_fs w')) w) ->
  forall names path w,
    wp (walk_names E rec fn path names) (fun _ w' => keeps (w_fs w) (w_fs w')) w.
Proof.
  intros Hrec Hfn names. induction names as [|name rest IH]; intros path w; simpl.
  - apply wp_ret, keeps_refl.
  - wp_step. wp_sys.
    + wp_step. eapply wp_mono; [apply Hfn|]. intros err w1 Hq; wp_simpl.
      destruct err; [apply wp_ret; assumption|].
      eapply wp_mono; [apply IH|]. intros; eapply keeps_trans; eauto.
    + wp_step. eapply wp_mono; [apply Hrec|]. intros err w1 Hq; wp_simpl.
      destruct err; [apply wp_ret; assumption|].
      eapply wp_mono; [apply IH|]. intros; eapply keeps_trans; eauto.
Qed.

Lemma wp_walk_keeps fn :
  (forall p i e w, wp (fn p i e) (fun _ w' => keeps (w_fs w) (w_fs w')) w) ->
  forall fuel path info w,
    wp (walk E fuel fn path info) (fun _ w' => keeps (w_fs w) (w_fs w')) w.
Proof.
  intros Hfn fuel. induction fuel as [|fuel IH]; intros path info w; simpl.
  - exact I.
  - destruct (negb (IsDir info)); [apply Hfn|].
    wp_step. wp_sys.
    + wp_step. eapply wp_mono; [apply Hfn|]. intros err w1 Hq; wp_simpl.
      now apply wp_ret.
    + wp_step. eapply wp_mono; [apply Hfn|]. intros err w1 Hq; wp_simpl.
      destruct err; [apply wp_ret; assumption|].
      eapply wp_mono; [apply wp_walk_names_keeps; auto|].
      intros; eapply keeps_trans; eauto.
Qed.

Lemma wp_copyDirectory_keeps fuel srcDir destDir w :
  wp (copyDirectory E fuel srcDir destDir) (fun _ w' => keeps (w_fs w) (w_fs w')) w.
Proof.
  unfold copyDirectory, filepath_Walk.
  wp_step. wp_sys.
  - eapply wp_mono; [apply wp_copyDirectory_func_keeps|]. intros err w1 Hk. exact Hk.
  - eapply wp_mono;
      [apply wp_walk_keeps; intros; apply wp_copyDirectory_func_keeps|].
    intros err w1 Hk. exact Hk.
Qed.

(** X9. Whatever copyDirectory returns, and whatever the two paths are, it
    has removed nothing and has replaced no directory: every path that
    existed still exists and every directory is still a directory. It has
    left the working directory and the process table alone, and every call
    it made is one of Lstat, ReadDir, MkdirAll, Open, Create, Copy, Sync
    and Close. *)
Theorem copyDirectory_removes_nothing fuel srcDir destDir w err w' :
  copyDirectory E fuel srcDir destDir w = Some (err, w') ->
  (forall k, is_Some (w_fs w !! k) -> is_Some (w_fs w' !! k)) /\
  (forall k, w_fs w !! k = Some Dir -> w_fs w' !! k = Some Dir) /\
  w_cwd w' = w_cwd w /\ w_children w' = w_children w /\
  exists evs,
    w_trace w' = w_trace w ++ evs /\ Forall (fun e => is_fs_event e.1) evs.
Proof.
  intros Hrun.
  pose proof (wp_elim _ _ _ _ _ (wp_copyDirectory_keeps fuel srcDir destDir w) Hrun)
    as Hk.
  destruct (wp_elim _ _ _ _ _ (wp_copyDirectory_quiet E fuel srcDir destDir w) Hrun)
    as (Hcwd & Hch & evs & Htr & _ & Hev).
  split; [intros k; apply Hk|]. split; [intros k; apply Hk|].
  split; [assumption|]. split; [assumption|]. eauto.
Qed.

(** X10. When the source does not exist, copyDirectory returns the error
    of Lstat after that one call, whatever the fuel: nothing is created at
    the destination. *)
Theorem copyDirectory_of_a_missing_source_changes_nothing fuel srcDir destDir w :
  fs_lookup (w_fs w) (resolve (w_cwd w) srcDir) = None ->
  exists e d,
    copyDirectory E fuel srcDir destDir w
      = Some (Some e, log_event (EvLstat srcDir) d w).
Proof.
  intros Hsrc. unfold copyDirectory, filepath_Walk, os_Lstat, bind, emit, get, ret.
  destruct (fault E w) as [e|] eqn:Hf.
  - exists e, (cost E w). reflexivity.
  - cbn [w_fs w_cwd log_event]. rewrite Hsrc. eexists _, (cost E w). reflexivity.
Qed.

(** X11. When the source does not exist, copyFile returns the error of
    Open after that one call: the destination is neither created nor
    truncated. *)
Theorem copyFile_of_a_missing_source_changes_nothing src dest w :
  fs_lookup (w_fs w) (resolve (w_cwd w) src) = None ->
  exists e d,
    copyFile E src dest w = Some (Some e, log_event (EvOpen src) d w).
Proof.
  intros Hsrc. unfold copyFile, os_Open, bind, emit, get, ret.
  destruct (fault E w) as [e|] eqn:Hf.
  - exists e, (cost E w). reflexivity.
  - cbn [w_fs w_cwd log_event]. rewrite Hsrc. eexists _, (cost E w). reflexivity.
Qed.

End Keeps.

(** ** copyFile on a path it cannot copy *)

Section Edges.
Variable E : env.
Hypothesis no_fault : forall n, e_fault E n = None.

Ltac nf_run :=
  repeat first
    [ ret_pure
    | apply (returns_emit E no_fault); wp_simpl ].

(** X12. When source and destination name the same file, copyFile opens
    it, truncates it by creating it, copies nothing and returns nil: the
    file is left empty. *)
Theorem copyFile_onto_itself_empties_the_file src dest w data b :
  resolve (w_cwd w) src = resolve (w_cwd w) dest ->
  fs_lookup (w_fs w) (resolve (w_cwd w) src) = Some (File data b) ->
  is_dir (fs_lookup (w_fs w) (parent (resolve (w_cwd w) dest))) = true ->
  exists w',
    copyFile E src dest w = Some (None, w') /\
    w_fs w' = <[resolve (w_cwd w) src := File "" true]> (w_fs w).
Proof.
  intros Heq Hsrc Hpar.
  enough (returns (copyFile E src dest)
            (fun err w' => err = None /\
               w_fs w' = <[resolve (w_cwd w) src := File "" true]> (w_fs w)) w)
    as (err & w' & Hrun & -> & Hfs) by eauto.
  pose proof Hsrc as Hsrc'. apply fs_lookup_File in Hsrc' as [Hne Hk].
  unfold copyFile, os_Open, os_Create, io_Copy, file_Sync, file_Close.
  nf_run. rewrite Hsrc. nf_run. rewrite <- Heq in *. rewrite Hsrc, Hpar. nf_run.
  rewrite fs_lookup_ne by assumption. rewrite lookup_insert_eq. nf_run.
  rewrite lookup_insert_eq. nf_run.
  split; [reflexivity|]. now rewrite !insert_insert_eq.
Qed.

(** X13. When the source is a directory, copyFile opens it, creates the
    destination, fails at the copy and returns that error; the empty
    destination it created stays behind. *)
Theorem copyFile_of_a_directory_leaves_an_empty_file src dest w :
  resolve (w_cwd w) src <> resolve (w_cwd w) dest ->
  fs_lookup (w_fs w) (resolve (w_cwd w) src) = Some Dir ->
  fs_lookup (w_fs w) (resolve (w_cwd w) dest) <> Some Dir ->
  is_dir (fs_lookup (w_fs w) (parent (resolve (w_cwd w) dest))) = true ->
  exists e w',
    copyFile E src dest w = Some (Some e, w') /\
    w_fs w' = <[resolve (w_cwd w) dest := File "" false]> (w_fs w).
Proof.
  intros Hneq Hsrc Hnd Hpar.
  enough (returns (copyFile E src dest)
            (fun err w' => err = Some "read: is a directory" /\
               w_fs w' = <[resolve (w_cwd w) dest := File "" false]> (w_fs w)) w)
    as (err & w' & Hrun & -> & Hfs) by eauto.
  unfold copyFile, os_Open, os_Create, io_Copy, file_Sync, file_Close.
  nf_run. rewrite Hsrc. nf_run. rewrite Hpar.
  assert (fs_lookup (<[resolve (w_cwd w) dest := File "" false]> (w_fs w))
            (resolve (w_cwd w) src) = Some Dir) as Hsrc'.
  { destruct (resolve (w_cwd w) src) as [|x l] eqn:Hs; [reflexivity|].
    simpl in *. now rewrite lookup_insert_ne. }
  destruct (fs_lookup (w_fs w) (resolve (w_cwd w) dest)) as [[|]|]; try congruence;
    nf_run; rewrite Hsrc'; nf_run; auto.
Qed.

End Edges.

(** The concrete machine injects no failure. *)
Lemma calm_no_fault lang beh n : e_fault (calm lang beh) n = None.
Proof. reflexivity. Qed.

(** The package file of the template, copied onto itself. *)
Lemma package_file_copied_onto_itself :
  (forall n, e_fault (calm "typescript" (exits_with 0 "" "")) n = None) /\
  resolve (w_cwd boot) (Abs ["tmp"; "dummy-pkg-ts"; "package.json"])
    = resolve (w_cwd boot) (Abs ["tmp"; "dummy-pkg-ts"; "package.json"]) /\
  fs_lookup (w_fs boot)
    (resolve (w_cwd boot) (Abs ["tmp"; "dummy-pkg-ts"; "package.json"]))
    = Some (File "{}" true) /\
  is_dir (fs_lookup (w_fs boot)
            (parent (resolve (w_cwd boot) (Abs ["tmp"; "dummy-pkg-ts"; "package.json"]))))
    = true /\
  exists w',
    copyFile (calm "typescript" (exits_with 0 "" ""))
      (Abs ["tmp"; "dummy-pkg-ts"; "package.json"])
      (Abs ["tmp"; "dummy-pkg-ts"; "package.json"]) boot = Some (None, w') /\
    w_fs w'
      = <[resolve (w_cwd boot) (Abs ["tmp"; "dummy-pkg-ts"; "package.json"])
          := File "" true]> (w_fs boot).
Proof.
  split; [apply calm_no_fault|]. do 3 (split; [reflexivity|]).
  exact (copyFile_onto_itself_empties_the_file
           (calm "typescript" (exits_with 0 "" ""))
           (calm_no_fault "typescript" (exits_with 0 "" ""))
           (Abs ["tmp"; "dummy-pkg-ts"; "package.json"])
           (Abs ["tmp"; "dummy-pkg-ts"; "package.json"]) boot "{}" true
           eq_refl eq_refl eq_refl).
Defined.

(** The template directory, given to copyFile as its source. *)
Lemma template_directory_given_to_copyFile :
  (forall n, e_fault (calm "typescript" (exits_with 0 "" "")) n = None) /\
  resolve (w_cwd boot) template_root
    <> resolve (w_cwd boot) (Abs ["mnt"; "persistent"; "copy"]) /\
  fs_lookup (w_fs boot) (resolve (w_cwd boot) template_root) = Some Dir /\
  fs_lookup (w_fs boot) (resolve (w_cwd boot) (Abs ["mnt"; "persistent"; "copy"]))
    <> Some Dir /\
  is_dir (fs_lookup (w_fs boot)
            (parent (resolve (w_cwd boot) (Abs ["mnt"; "persistent"; "copy"])))) = true /\
  exists e w',
    copyFile (calm "typescript" (exits_with 0 "" "")) template_root
      (Abs ["mnt"; "persistent"; "copy"]) boot = Some (Some e, w') /\
    w_fs w'
      = <[resolve (w_cwd boot) (Abs ["mnt"; "persistent"; "copy"]) := File "" false]>
          (w_fs boot).
Proof.
  assert (resolve (w_cwd boot) template_root
          <> resolve (w_cwd boot) (Abs ["mnt"; "persistent"; "copy"])) as Hne
    by discriminate.
  assert (fs_lookup (w_fs boot) (resolve (w_cwd boot) (Abs ["mnt"; "persistent"; "copy"]))
          <> Some Dir) as Hnd by (vm_compute; discriminate).
  split; [apply calm_no_fault|]. split; [exact Hne|]. split; [reflexivity|].
  split; [exact Hnd|]. split; [reflexivity|].
  exact (copyFile_of_a_directory_leaves_an_empty_file
           (calm "typescript" (exits_with 0 "" ""))
           (calm_no_fault "typescript" (exits_with 0 "" ""))
           template_root (Abs ["mnt"; "persistent"; "copy"]) boot
           Hne eq_refl Hnd eq_refl).
Defined.

(** The copy of the template into a fresh workspace removes nothing. *)
Lemma template_copy_removes_nothing :
  exists err w',
    copyDirectory (calm "typescript" (exits_with 0 "" "")) 3 template_root
      (Abs ["mnt"; "persistent"; "ws"]) boot = Some (err, w') /\
    (forall k, is_Some (w_fs boot !! k) -> is_Some (w_fs w' !! k)) /\
    (forall k, w_fs boot !! k = Some Dir -> w_fs w' !! k = Some Dir) /\
    w_cwd w' = w_cwd boot /\ w_children w' = w_children boot /\
    exists evs,
      w_trace w' = w_trace boot ++ evs /\ Forall (fun e => is_fs_event e.1) evs.
Proof.
  do 2 eexists.
  lazymatch goal with |- ?A /\ _ => assert A as Hrun by run end.
  split; [exact Hrun|].
  exact (copyDirectory_removes_nothing _ _ _ _ _ _ _ Hrun).
Defined.

(** A source that does not exist. *)
Lemma copyDirectory_from_nowhere :
  fs_lookup (w_fs boot) (resolve (w_cwd boot) (Abs ["nowhere"])) = None /\
  exists e d,
    copyDirectory (calm "typescript" (exits_with 0 "" "")) 0 (Abs ["nowhere"])
      (Abs ["mnt"; "persistent"; "ws"]) boot
    = Some (Some e, log_event (EvLstat (Abs ["nowhere"])) d boot).
Proof.
  split; [reflexivity|].
  exact (copyDirectory_of_a_missing_source_changes_nothing
           (calm "typescript" (exits_with 0 "" "")) 0 (Abs ["nowhere"])
           (Abs ["mnt"; "persistent"; "ws"]) boot eq_refl).
Defined.

Lemma copyFile_from_nowhere :
  fs_lookup (w_fs boot) (resolve (w_cwd boot) (Abs ["nowhere"])) = None /\
  exists e d,
    copyFile (calm "typescript" (exits_with 0 "" "")) (Abs ["nowhere"])
      (Abs ["mnt"; "persistent"; "copy"]) boot
    = Some (Some e, log_event (EvOpen (Abs ["nowhere"])) d boot).
Proof.
  split; [reflexivity|].
  exact (copyFile_of_a_missing_source_changes_nothing
           (calm "typescript" (exits_with 0 "" "")) (Abs ["nowhere"])
           (Abs ["mnt"; "persistent"; "copy"]) boot eq_refl).
Defined.

(** ** What the child is started on *)

Lemma no_self_snoc {A} (l : list A) x : l <> l ++ [x].
Proof.
  intros H. apply (f_equal length) in H. rewrite length_app in H. simpl in H. lia.
Qed.

Lemma wp_conj {A} (m : M A) (P Q : A -> world -> Prop) w :
  wp m P w -> wp m Q w -> wp m (fun a w' => P a w' /\ Q a w') w.
Proof. unfold wp. destruct (m w) as [[a w']|]; auto. Qed.


Section Spawn.
Variable E : env.



Lemma wp_handleJavaScriptExecution_child filePath w :
  wp (handleJavaScriptExecution E filePath)
     (fun _ w' =>
        forall c, w_children w' = w_children w ++ [c] ->
          c_argv c = ["node"; path_string filePath] /\
          c_beh c = e_proc E (w_fs w) (w_cwd w) ["node"; path_string filePath]) w.
Proof.
  unfold handleJavaScriptExecution. wp_all.
  all: intros c0 Hc0; try (now apply no_self_snoc in Hc0).
  all: apply app_inj_tail in Hc0 as [_ <-]; auto.
Qed.

Ltac wp_pipeline_child :=
  lazymatch goal with
  | |- wp (handleJavaScriptExecution _ _) _ _ =>
      eapply wp_mono;
      [apply wp_conj;
       [apply wp_handleJavaScriptExecution_child | apply wp_handleJavaScriptExecution]
      | intros [[?out ?errout] ?err] ?w2 [?Hchild [?evs2 ?Hrun]]]
  | |- wp (handleTypeScriptExecution _ _ _) _ _ =>
      eapply wp_mono; [apply wp_any | intros [[?out ?errout] ?err] ?w2 _]
  end; wp_simpl.

Lemma wp_codeExecHandler_javascript_child fuel r w :
  wp (codeExecHandler E fuel r)
     (fun _ w' =>
        forall req c,
          e_unmarshal E (r_Body r) = Some req -> Language req = "javascript" ->
          w_children w' = w_children w ++ [c] ->
          exists u,
            c_argv c = ["node"; path_string (Abs ["mnt"; "persistent"; u +:+ ".js"])] /\
            c_beh c = e_proc E
                        (<[ ["mnt"; "persistent"; u +:+ ".js"] := File (Code req) false ]>
                           (w_fs w))
                        (w_cwd w) (c_argv c)) w.
Proof.
  unfold codeExecHandler.
  repeat (first [wp_step | wp_sys | wp_pipeline_child]).
  all: intros req c0 Hreq Hjs Hc0; try (now apply no_self_snoc in Hc0).
  all: try (injection Hreq as <-).
  all: try (apply bool_decide_eq_false in Heqb1; contradiction).
  all: rewrite Hjs, javascript_extension in *.
  all: destruct Hrun as (_ & _ & _ & _ & _ & Hch2).
  all: assert (w_children w2 = w_children w ++ [c0]) as Hc2
         by (destruct Hch2 as [(Hch2 & _)|(c' & Hch2 & _)]; wp_simpl; congruence).
  all: destruct (Hchild c0 Hc2) as [Hargv Hbeh].
  all: exists u; rewrite Hargv; split; [reflexivity|exact Hbeh].
Qed.

(** X15. The child of a JavaScript request is node on the path of the
    entry file, and it is started on the file system the request found with
    the request's code at that path: what is run is what was sent. *)
Theorem javascript_child_runs_the_code_of_the_request fuel r w resp w' req c :
  codeExecHandler E fuel r w = Some (resp, w') ->
  e_unmarshal E (r_Body r) = Some req -> Language req = "javascript" ->
  w_children w' = w_children w ++ [c] ->
  exists u,
    c_argv c = ["node"; path_string (Abs ["mnt"; "persistent"; u +:+ ".js"])] /\
    c_beh c = e_proc E
                (<[ ["mnt"; "persistent"; u +:+ ".js"] := File (Code req) false ]>
                   (w_fs w))
                (w_cwd w) (c_argv c).
Proof.
  intros Hrun Hreq Hjs Hc.
  exact (wp_elim _ _ _ _ _ (wp_codeExecHandler_javascript_child fuel r w) Hrun
           req c Hreq Hjs Hc).
Qed.

End Spawn.


(** The child of a JavaScript request on the bare machine. *)
Lemma javascript_child_on_the_bare_machine :
  exists resp w' c,
    codeExecHandler (calm "javascript" (exits_with 0 "hello" "")) 0 (post "code") bare
      = Some (resp, w') /\
    e_unmarshal (calm "javascript" (exits_with 0 "hello" "")) (r_Body (post "code"))
      = Some (sample "javascript") /\
    Language (sample "javascript") = "javascript" /\
    w_children w' = w_children bare ++ [c] /\
    exists u,
      c_argv c = ["node"; path_string (Abs ["mnt"; "persistent"; u +:+ ".js"])] /\
      c_beh c = e_proc (calm "javascript" (exits_with 0 "hello" ""))
                  (<[ ["mnt"; "persistent"; u +:+ ".js"]
                      := File (Code (sample "javascript")) false ]> (w_fs bare))
                  (w_cwd bare) (c_argv c).
Proof.
  do 3 eexists.
  lazymatch goal with |- ?A /\ _ => assert A as Hrun by run end.
  lazymatch goal with |- _ /\ _ /\ _ /\ ?A /\ _ => assert A as Hc by reflexivity end.
  split; [exact Hrun|]. do 2 (split; [reflexivity|]). split; [exact Hc|].
  exact (javascript_child_runs_the_code_of_the_request _ _ _ _ _ _ _ _
           Hrun eq_refl eq_refl Hc).
Defined.

(** ** What a 200 answer carries *)

Section Success.
Variable E : env.

Lemma wp_handleJavaScriptExecution_success filePath w :
  wp (handleJavaScriptExecution E filePath)
     (fun r w' =>
        r.2 = None ->
        exists c,
          w_children w' = w_children w ++ [c] /\ c_state c = Exited 0 /\
          r.1 = (p_stdout (c_beh c), p_stderr (c_beh c))) w.
Proof.
  unfold handleJavaScriptExecution. wp_all.
  all: intros Hr; try discriminate Hr.
  all: eexists; split; [reflexivity|]; wp_simpl.
  all: split; reflexivity.
Qed.

Lemma wp_executeTypescript_success fuel filePath w :
  wp (executeTypescript E fuel filePath)
     (fun r w' =>
        r.2 = None ->
        exists c,
          w_children w' = w_children w ++ [c] /\ c_state c = Exited 0 /\
          r.1 = (p_stdout (c_beh c), p_stderr (c_beh c))) w.
Proof.
  eapply wp_mono.
  { apply wp_conj;
      [apply wp_executeTypescript_workspace | apply wp_executeTypescript]. }
  intros [[out errout] err] w' [Hws (evs & _ & _ & Hts)] Hr. simpl in Hr. subst err.
  destruct (Hws eq_refl) as (u & c & _ & Hch & Hst & _).
  destruct Hts as [(_ & _ & Hne)|(c' & u' & Hch' & _ & _ & _ & _ & _ & _ & _ & _ & Hok)].
  { now contradiction Hne. }
  destruct (Hok eq_refl) as (Hout & _).
  rewrite Hch in Hch'. apply app_inj_tail in Hch' as [_ <-].
  exists c. auto.
Qed.

Ltac wp_pipeline_success :=
  lazymatch goal with
  | |- wp (handleJavaScriptExecution _ _) _ _ =>
      eapply wp_mono;
      [apply wp_handleJavaScriptExecution_success
      | intros [[?out ?errout] ?err] ?w2 ?Hsucc]
  | |- wp (handleTypeScriptExecution _ _ _) _ _ =>
      unfold handleTypeScriptExecution; eapply wp_mono;
      [apply wp_executeTypescript_success
      | intros [[?out ?errout] ?err] ?w2 ?Hsucc]
  end; wp_simpl.

Lemma wp_codeExecHandler_success fuel r w :
  wp (codeExecHandler E fuel r)
     (fun resp w' =>
        status resp = 200 ->
        exists c elapsed,
          w_children w' = w_children w ++ [c] /\ c_state c = Exited 0 /\
          resp = {| status := 200; content_type := "application/json";
                    body := success_body (p_stdout (c_beh c)) (p_stderr (c_beh c))
                              elapsed |}) w.
Proof.
  unfold codeExecHandler.
  repeat (first [wp_step | wp_sys | wp_pipeline_success]).
  all: intros Hst; try discriminate Hst.
  all: destruct (Hsucc eq_refl) as (c0 & Hch & Hexit & Hout); simpl in Hout.
  all: injection Hout as -> ->.
  all: exists c0; eexists; split; [exact Hch|]; split; [exact Hexit|reflexivity].
Qed.

(** X16. A request is answered 200 only when the child it spawned exited
    by itself with status 0, and the body then carries, in the envelope,
    exactly what that child wrote to its standard output and to its
    standard error. *)
Theorem success_answer_carries_the_output_of_an_exited_child fuel r w resp w' :
  codeExecHandler E fuel r w = Some (resp, w') ->
  status resp = 200 ->
  exists c elapsed,
    w_children w' = w_children w ++ [c] /\ c_state c = Exited 0 /\
    resp = {| status := 200; content_type := "application/json";
              body := success_body (p_stdout (c_beh c)) (p_stderr (c_beh c)) elapsed |}.
Proof.
  intros Hrun Hst.
  exact (wp_elim _ _ _ _ _ (wp_codeExecHandler_success fuel r w) Hrun Hst).
Qed.

End Success.

(** A JavaScript request that prints hello. *)
Lemma hello_is_answered_with_hello :
  exists resp w',
    codeExecHandler (calm "javascript" (exits_with 0 "hello" "")) 0 (post "code") bare
      = Some (resp, w') /\
    status resp = 200 /\
    exists c elapsed,
      w_children w' = w_children bare ++ [c] /\ c_state c = Exited 0 /\
      resp = {| status := 200; content_type := "application/json";
                body := success_body (p_stdout (c_beh c)) (p_stderr (c_beh c))
                          elapsed |}.
Proof.
  do 2 eexists.
  lazymatch goal with |- ?A /\ _ => assert A as Hrun by run end.
  split; [exact Hrun|]. split; [reflexivity|].
  exact (success_answer_carries_the_output_of_an_exited_child _ _ _ _ _ _
           Hrun eq_refl).
Defined.
